(** * Recurrent visual attention: the glimpse sensor and the recurrent policy

    A shallow embedding of [modules.py] (classes [retina], [GlimpseNet],
    [core_network], [LocationNet], [ActionNet] and [BaselineNet]) and of
    [trainer.py] (class [Trainer]: its constructor, [train],
    [train_one_epoch] and [validate]) together with the part of the tensor
    library those classes call, and the properties of the design document
    settled against it.  [Trainer.test] is left out: it calls
    [load_checkpoint], which the class does not define.

    Numbers.  Python integers (patch sizes, pixel coordinates, tensor
    dimensions, indices) are [Z].  Tensor entries of the image pipeline are
    rationals [Q]: single-precision rounding is not modelled, every
    arithmetic step is exact.  The location policy applies [tanh], so its
    entries are real numbers [R].

    Tensors.  A tensor is its shape together with an indexing function; only
    indices inside the shape are meaningful.  Shapes are therefore exact,
    also when a dimension is zero. *)

From Stdlib Require Import ZArith QArith Qround Qpower Reals Psatz List Bool.
From Stdlib Require Import FunctionalExtensionality.
From Stdlib Require String.
Import String.StringSyntax.
Delimit Scope string_scope with string.
Import ListNotations.

Local Open Scope Z_scope.

(** ** Scalars *)

Class Scalar (A : Type) := {
  s_zero : A;
  s_add : A -> A -> A;
  s_mul : A -> A -> A;
  s_relu : A -> A
}.

Definition Qrelu (x : Q) : Q := if Qle_bool x 0 then 0%Q else x.

#[export] Instance Q_scalar : Scalar Q :=
  {| s_zero := 0%Q; s_add := Qplus; s_mul := Qmult; s_relu := Qrelu |}.

#[export] Instance R_scalar : Scalar R :=
  {| s_zero := 0%R; s_add := Rplus; s_mul := Rmult; s_relu := Rmax 0 |}.

(** ** Tensors of rank 2 and 4 *)

Record tensor2 (A : Type) := T2 {
  nrows : Z;
  ncols : Z;
  at2 : Z -> Z -> A
}.
Arguments T2 {A} _ _ _.
Arguments nrows {A} _.
Arguments ncols {A} _.
Arguments at2 {A} _ _ _.

Record tensor4 := T4 {
  dimB : Z;
  dimC : Z;
  dimH : Z;
  dimW : Z;
  at4 : Z -> Z -> Z -> Z -> Q
}.

Definition shape2 {A} (t : tensor2 A) : Z * Z := (nrows t, ncols t).
Definition shape4 (t : tensor4) : Z * Z * Z * Z := (dimB t, dimC t, dimH t, dimW t).

(** [range(n)] of Python: [0, 1, ..., n-1], empty when [n <= 0]. *)
Definition range (n : Z) : list Z := map Z.of_nat (seq 0 (Z.to_nat n)).

(** The entries of a rank-2 tensor, row by row. *)
Definition rows_of {A} (t : tensor2 A) : list (list A) :=
  map (fun i => map (fun j => at2 t i j) (range (ncols t))) (range (nrows t)).

(** ** Options: the error monad of the library calls *)

Definition obind {A B} (c : option A) (k : A -> option B) : option B :=
  match c with Some a => k a | None => None end.

Fixpoint omap {A B} (f : A -> option B) (xs : list A) : option (list B) :=
  match xs with
  | [] => Some []
  | x :: r =>
      match f x with
      | None => None
      | Some y => match omap f r with None => None | Some ys => Some (y :: ys) end
      end
  end.

(** ** State and errors: a method of an object that may raise

    A computation takes the object, returns the object as the call leaves it
    and either a value or [None] when an exception was raised.  Attributes
    assigned before the exception stay assigned. *)

Definition M (S A : Type) : Type := S -> S * option A.

Definition ret {S A} (a : A) : M S A := fun s => (s, Some a).
Definition bind {S A B} (c : M S A) (k : A -> M S B) : M S B :=
  fun s => match c s with
           | (s', Some a) => k a s'
           | (s', None) => (s', None)
           end.
Definition lift {S A} (o : option A) : M S A := fun s => (s, o).
Definition gets {S A} (f : S -> A) : M S A := fun s => (s, Some (f s)).
Definition modify {S} (f : S -> S) : M S unit := fun s => (f s, Some tt).

Notation "x <- c ;; k" := (bind c (fun x => k))
  (at level 61, c at next level, right associativity).

(** ** The tensor library *)

Module torch.

(** *** Indexing *)

(** One bound of a Python slice over a dimension of length [n]: a negative
    bound counts from the end, and the bound is clamped to [0, n]. *)
Definition slice_index (n i : Z) : Z :=
  if i <? 0 then Z.max (i + n) 0 else Z.min i n.

(** The effective bounds of [a:b] over a dimension of length [n]; the slice
    has [snd - fst] elements. *)
Definition slice_bounds (n a b : Z) : Z * Z :=
  let a' := slice_index n a in
  (a', Z.max a' (slice_index n b)).

(** [v[i]] for a vector of length [n], with [0 <= i]: an [IndexError] when
    [i] is not below [n]. *)
Definition getitem {A} (n : Z) (v : Z -> A) (i : Z) : option A :=
  if (0 <=? i) && (i <? n) then Some (v i) else None.

(** [x[i, :, fy:ty, fx:tx].unsqueeze(0)], for [0 <= i < dimB x]. *)
Definition slice_patch (x : tensor4) (i fy ty fx tx : Z) : tensor4 :=
  let ys := slice_bounds (dimH x) fy ty in
  let xs := slice_bounds (dimW x) fx tx in
  T4 1 (dimC x) (snd ys - fst ys) (snd xs - fst xs)
     (fun _ c h w => at4 x i c (fst ys + h) (fst xs + w)).

(** *** Padding *)

Definition inside (n i : Z) : bool := (0 <=? i) && (i <? n).

(** [nn.ConstantPad2d(p, v)(x)]: [p] more rows and columns on every side,
    filled with [v]; a negative [p] crops, and the call fails when a
    dimension would become negative. *)
Definition ConstantPad2d (p : Z) (v : Q) (x : tensor4) : option tensor4 :=
  if (dimH x + 2 * p <? 0) || (dimW x + 2 * p <? 0) then None
  else Some (T4 (dimB x) (dimC x) (dimH x + 2 * p) (dimW x + 2 * p)
               (fun b c h w =>
                  if inside (dimH x) (h - p) && inside (dimW x) (w - p)
                  then at4 x b c (h - p) (w - p) else v)).

(** *** Concatenation *)

Definition same_CHW (a b : tensor4) : bool :=
  (dimC a =? dimC b) && (dimH a =? dimH b) && (dimW a =? dimW b).

Definition same_BHW (a b : tensor4) : bool :=
  (dimB a =? dimB b) && (dimH a =? dimH b) && (dimW a =? dimW b).

Definition total (f : tensor4 -> Z) (ts : list tensor4) : Z :=
  fold_right (fun t n => f t + n) 0 ts.

Fixpoint cat0_at (ts : list tensor4) (b : Z) : Z -> Z -> Z -> Q :=
  match ts with
  | [] => fun _ _ _ => 0%Q
  | t :: r => if b <? dimB t then at4 t b else cat0_at r (b - dimB t)
  end.

Fixpoint cat1_at (ts : list tensor4) (b c : Z) : Z -> Z -> Q :=
  match ts with
  | [] => fun _ _ => 0%Q
  | t :: r => if c <? dimC t then at4 t b c else cat1_at r b (c - dimC t)
  end.

(** [torch.cat(ts)] (along the batch axis): fails on an empty list and when
    the other three dimensions differ. *)
Definition cat0 (ts : list tensor4) : option tensor4 :=
  match ts with
  | [] => None
  | t :: r =>
      if forallb (same_CHW t) r
      then Some (T4 (total dimB ts) (dimC t) (dimH t) (dimW t) (cat0_at ts))
      else None
  end.

(** [torch.cat(ts, 1)] (along the channel axis). *)
Definition cat1 (ts : list tensor4) : option tensor4 :=
  match ts with
  | [] => None
  | t :: r =>
      if forallb (same_BHW t) r
      then Some (T4 (dimB t) (total dimC ts) (dimH t) (dimW t) (cat1_at ts))
      else None
  end.

(** *** Pooling and reshaping *)

Definition Qsum (qs : list Q) : Q := fold_right Qplus 0%Q qs.

(** [F.avg_pool2d(x, k)]: windows of [k] by [k], stride [k], no padding.  It
    fails for a kernel that is not positive and when an output dimension
    would be empty. *)
Definition avg_pool2d (x : tensor4) (k : Z) : option tensor4 :=
  if k <=? 0 then None
  else
    let oh := dimH x / k in
    let ow := dimW x / k in
    if (oh <=? 0) || (ow <=? 0) then None
    else Some (T4 (dimB x) (dimC x) oh ow
                 (fun b c h w =>
                    (Qsum (map (fun u =>
                       Qsum (map (fun v => at4 x b c (h * k + u) (w * k + v))
                                 (range k)))
                       (range k)) / inject_Z (k * k))%Q)).

(** [x.view(x.shape[0], -1)]: the last three axes in row-major order.  With
    no rows the missing dimension cannot be inferred and the call fails. *)
Definition view_rows (x : tensor4) : option (tensor2 Q) :=
  if dimB x =? 0 then None
  else Some (T2 (dimB x) (dimC x * dimH x * dimW x)
               (fun i j => at4 x i (j / (dimH x * dimW x))
                                   ((j / dimW x) mod dimH x)
                                   (j mod dimW x))).

(** *** Layers and arithmetic on rank-2 tensors *)

(** Broadcasting of one dimension: equal sizes, or one of them is 1. *)
Definition broadcast_dim (a b : Z) : option Z :=
  if a =? b then Some a
  else if a =? 1 then Some b
  else if b =? 1 then Some a
  else None.

(** The index read along a dimension of size [n] that may be broadcast. *)
Definition bidx (n i : Z) : Z := if n =? 1 then 0 else i.

Section Layers.
Context {A : Type} `{Scalar A}.

(** [nn.Linear(in_features, out_features)]: [weight] has one row per
    output, [bias] one entry per output. *)
Record Linear := mkLinear {
  in_features : Z;
  out_features : Z;
  weight : Z -> Z -> A;
  bias : Z -> A
}.

(** The initial weights and biases of a layer, which the constructor of
    [nn.Linear] draws at random. *)
Record params := mkParams {
  p_weight : Z -> Z -> A;
  p_bias : Z -> A
}.

Definition new_Linear (n_in n_out : Z) (p : params) : Linear :=
  mkLinear n_in n_out (p_weight p) (p_bias p).

Definition dot (n : Z) (u v : Z -> A) : A :=
  fold_right (fun k acc => s_add (s_mul (u k) (v k)) acc) s_zero (range n).

(** [fc(x)] is [x @ weight.T + bias]; the width of [x] must be
    [in_features]. *)
Definition Linear_forward (fc : Linear) (x : tensor2 A) : option (tensor2 A) :=
  if ncols x =? in_features fc
  then Some (T2 (nrows x) (out_features fc)
               (fun i j => s_add (dot (in_features fc) (at2 x i) (weight fc j))
                                 (bias fc j)))
  else None.

Definition map2 {B} (f : A -> B) (x : tensor2 A) : tensor2 B :=
  T2 (nrows x) (ncols x) (fun i j => f (at2 x i j)).

Definition relu (x : tensor2 A) : tensor2 A := map2 s_relu x.

(** [x + y] with broadcasting. *)
Definition add (x y : tensor2 A) : option (tensor2 A) :=
  match broadcast_dim (nrows x) (nrows y), broadcast_dim (ncols x) (ncols y) with
  | Some r, Some c =>
      Some (T2 r c (fun i j =>
              s_add (at2 x (bidx (nrows x) i) (bidx (ncols x) j))
                    (at2 y (bidx (nrows y) i) (bidx (ncols y) j))))
  | _, _ => None
  end.
End Layers.
Arguments Linear A : clear implicits.
Arguments params A : clear implicits.

(** [torch.zeros(n, m)]: a negative dimension is an error. *)
Definition zeros (n m : Z) : option (tensor2 Q) :=
  if (n <? 0) || (m <? 0) then None else Some (T2 n m (fun _ _ => 0%Q)).

(** [t.long()] on one entry: the fractional part is dropped (rounding
    towards zero). *)
Definition long (q : Q) : Z := Z.quot (Qnum q) (Zpos (Qden q)).

Definition Rsum (xs : list R) : R := fold_right Rplus 0%R xs.

(** [F.log_softmax(x, dim=1)]: the logarithm of the softmax of every row. *)
Definition log_softmax (x : tensor2 R) : tensor2 R :=
  T2 (nrows x) (ncols x)
     (fun i j => ln (exp (at2 x i j) /
                     Rsum (map (fun k => exp (at2 x i k)) (range (ncols x))))%R).

End torch.

(** ** The retina: multi-resolution patches around a location *)

Module retina.

Record t := mk {
  patch_size : Z;
  num_patches : Z;
  scale : Q;
  imgShape : option (Z * Z)
}.

(** [retina(patch_size, num_patches, scale)]: no image shape cached yet. *)
Definition init (patch_size num_patches : Z) (scale : Q) : t :=
  mk patch_size num_patches scale None.

(** [if not hasattr(self, 'imgShape'): self.imgShape = [H, W]]. *)
Definition cache_imgShape (H W : Z) : M t unit :=
  modify (fun self =>
            match imgShape self with
            | Some _ => self
            | None => mk (patch_size self) (num_patches self) (scale self) (Some (H, W))
            end).

Definition read_imgShape : M t (Z * Z) := fun self => (self, imgShape self).

(** [(0.5 * ((l + 1.0) * imgShape)).long()]: the cached shape, a row of two
    entries, is broadcast against the rows of [l]. *)
Definition pixel_coords (l : tensor2 Q) (shape : Z * Z) : option (tensor2 Z) :=
  match torch.broadcast_dim (ncols l) 2 with
  | None => None
  | Some c =>
      Some (T2 (nrows l) c
              (fun i j =>
                 torch.long ((1 # 2) *
                             ((at2 l i (torch.bidx (ncols l) j) + 1) *
                              inject_Z (if j =? 0 then fst shape else snd shape)))%Q))
  end.

(** The padding put around the image for a patch of side [size]. *)
Definition padding (size : Z) : Z := size / 2.

Definition from_x (coords : tensor2 Z) (i : Z) : option Z :=
  torch.getitem (nrows coords) (fun k => at2 coords k 0) i.
Definition from_y (coords : tensor2 Z) (i : Z) : option Z :=
  torch.getitem (nrows coords) (fun k => at2 coords k 1) i.

(** The patch of batch element [i], cut from the padded image [x']:
    [x'[i, :, from_y[i]:to_y[i], from_x[i]:to_x[i]].unsqueeze(0)]. *)
Definition cut (x' : tensor4) (coords : tensor2 Z) (size i : Z) : option tensor4 :=
  obind (from_y coords i) (fun fy =>
  obind (from_x coords i) (fun fx =>
  Some (torch.slice_patch x' i fy (fy + size) fx (fx + size)))).

Definition extract_patch (x : tensor4) (l : tensor2 Q) (size : Z) : M t tensor4 :=
  _ <- cache_imgShape (dimH x) (dimW x) ;;
  shape <- read_imgShape ;;
  coords <- lift (pixel_coords l shape) ;;
  x' <- lift (torch.ConstantPad2d (padding size) 0 x) ;;
  patch <- lift (omap (cut x' coords size) (range (dimB x))) ;;
  lift (torch.cat0 patch).

(** [int(self.scale * size)]. *)
Definition next_size (scale : Q) (size : Z) : Z :=
  torch.long (scale * inject_Z size)%Q.

(** The first loop of [foveate], with [n] iterations left. *)
Fixpoint extract_all (n : nat) (size : Z) (x : tensor4) (l : tensor2 Q)
  : M t (list tensor4) :=
  match n with
  | O => ret []
  | S n' =>
      p <- extract_patch x l size ;;
      s <- gets scale ;;
      ps <- extract_all n' (next_size s size) x l ;;
      ret (p :: ps)
  end.

(** One step of the second loop:
    [F.avg_pool2d(p, p.shape[-1] // self.patch_size)]. *)
Definition resize (patch_size : Z) (p : tensor4) : option tensor4 :=
  if patch_size =? 0 then None
  else torch.avg_pool2d p (dimW p / patch_size).

(** The second loop: every patch but the first is resized. *)
Definition resize_all (patch_size : Z) (patches : list tensor4)
  : option (list tensor4) :=
  match patches with
  | [] => Some []
  | p0 :: rest => option_map (cons p0) (omap (resize patch_size) rest)
  end.

(** The patches of [foveate] before and after resizing. *)
Definition extracted_patches (x : tensor4) (l : tensor2 Q) : M t (list tensor4) :=
  n <- gets num_patches ;;
  size <- gets patch_size ;;
  extract_all (Z.to_nat n) size x l.

Definition resized_patches (x : tensor4) (l : tensor2 Q) : M t (list tensor4) :=
  patches <- extracted_patches x l ;;
  p <- gets patch_size ;;
  lift (resize_all p patches).

Definition foveate (x : tensor4) (l : tensor2 Q) : M t (tensor2 Q) :=
  patches <- resized_patches x l ;;
  patches <- lift (torch.cat1 patches) ;;
  lift (torch.view_rows patches).

End retina.

(** ** Random number generators

    The two global generators the code draws from, as explicit state: the
    sequence of draws a generator will produce and how many were consumed.
    The laws of the draws (uniform, normal) belong to the generators and are
    not part of this development. *)

Module torch_random.

Record generator := mk {
  words : nat -> N;
  cursor : nat
}.

(** A draw from the unit interval: the low 24 bits of a generator word,
    scaled by [2^-24] (single precision has 24 bits of mantissa). *)
Definition unit_draw (w : N) : Q :=
  (inject_Z (Z.of_N (w mod 2 ^ 24)) / inject_Z (2 ^ 24))%Q.

(** [torch.Tensor(n, m).uniform_(from, to)]: entry [(i, j)] is made from
    draw number [i * m + j] after the cursor. *)
Definition uniform_ (from to : Q) (n m : Z) : M generator (tensor2 Q) :=
  fun g =>
    if (n <? 0) || (m <? 0) then (g, None)
    else (mk (words g) (cursor g + Z.to_nat (n * m)),
          Some (T2 n m (fun i j =>
                  (unit_draw (words g (cursor g + Z.to_nat (i * m + j)))
                   * (to - from) + from)%Q))).

End torch_random.

Module np_random.

Record state := mk {
  gauss : nat -> R;
  position : nat
}.

(** [np.random.normal(scale=scale, size=(n, m))]: each entry is
    [0 + scale * z] for its own standard normal draw [z]; a negative
    [scale] is a [ValueError]. *)
Definition normal (scale : R) (n m : Z) : M state (tensor2 R) :=
  fun g =>
    if Rlt_dec scale 0 then (g, None)
    else (mk (gauss g) (position g + Z.to_nat (n * m)),
          Some (T2 n m (fun i j =>
                  (0 + scale * gauss g (position g + Z.to_nat (i * m + j)))%R))).

End np_random.

(** ** The glimpse network *)

Module GlimpseNet.

Record t := mk {
  retina : retina.t;
  fc1 : torch.Linear Q;
  fc2 : torch.Linear Q;
  fc3 : torch.Linear Q;
  fc4 : torch.Linear Q
}.

Definition init (hidden_g hidden_l patch_size num_patches : Z) (scale : Q)
    (num_channel : Z) (p1 p2 p3 p4 : torch.params Q) : t :=
  let D_in := num_patches * patch_size * patch_size * num_channel in
  mk (retina.init patch_size num_patches scale)
     (torch.new_Linear D_in hidden_g p1)
     (torch.new_Linear 2 hidden_l p2)
     (torch.new_Linear hidden_g (hidden_g + hidden_l) p3)
     (torch.new_Linear hidden_l (hidden_g + hidden_l) p4).

(** A method of [self.retina], run from a method of the network. *)
Definition on_retina {A} (c : M retina.t A) : M t A :=
  fun self =>
    let (r, a) := c (retina self) in
    (mk r (fc1 self) (fc2 self) (fc3 self) (fc4 self), a).

(** A layer of the network applied to [x]. *)
Definition call (layer : t -> torch.Linear Q) (x : tensor2 Q) : M t (tensor2 Q) :=
  fun self => (self, torch.Linear_forward (layer self) x).

Definition forward (x_t : tensor4) (l_t : tensor2 Q) : M t (tensor2 Q) :=
  glimpse <- on_retina (retina.foveate x_t l_t) ;;
  h_what <- call fc1 glimpse ;;
  what <- call fc3 (torch.relu h_what) ;;
  h_where <- call fc2 l_t ;;
  where_ <- call fc4 (torch.relu h_where) ;;
  s <- lift (torch.add what where_) ;;
  ret (torch.relu s).

End GlimpseNet.

(** ** The recurrent core *)

Module core_network.

Record t := mk {
  input_size : Z;
  hidden_size : Z;
  i2h : torch.Linear Q;
  h2h : torch.Linear Q
}.

Definition init (input_size hidden_size : Z) (p1 p2 : torch.params Q) : t :=
  mk input_size hidden_size
     (torch.new_Linear input_size hidden_size p1)
     (torch.new_Linear hidden_size hidden_size p2).

Definition forward (self : t) (g_t h_t_prev : tensor2 Q) : option (tensor2 Q) :=
  obind (torch.Linear_forward (i2h self) g_t) (fun h1 =>
  obind (torch.Linear_forward (h2h self) h_t_prev) (fun h2 =>
  obind (torch.add h1 h2) (fun s =>
  Some (torch.relu s)))).

(** [use_gpu] only selects where the two tensors are stored. *)
Definition init_state (self : t) (batch_size : Z) (use_gpu : bool)
  : M torch_random.generator (tensor2 Q * tensor2 Q) :=
  h_t <- lift (torch.zeros batch_size (hidden_size self)) ;;
  l_t <- torch_random.uniform_ (-1) 1 batch_size 2 ;;
  ret (h_t, l_t).

End core_network.

(** ** The location network *)

Module LocationNet.

Record t := mk {
  std : R;
  fc : torch.Linear R
}.

Definition init (input_size output_size : Z) (std : R) (p : torch.params R) : t :=
  mk std (torch.new_Linear input_size output_size p).

(** [l_t.detach()] cuts the gradient and leaves the values as they are;
    gradients are not modelled. *)
Definition detach (x : tensor2 R) : tensor2 R := x.

Definition forward (self : t) (h_t : tensor2 R)
  : M np_random.state (tensor2 R * tensor2 R) :=
  a <- lift (torch.Linear_forward (fc self) h_t) ;;
  let mu := torch.map2 tanh a in
  noise <- np_random.normal (std self) (nrows mu) (ncols mu) ;;
  l_t <- lift (torch.add mu noise) ;;
  let l_t := torch.map2 tanh l_t in
  let l_t := detach l_t in
  ret (mu, l_t).

End LocationNet.

(** ** The action network and the baseline network *)

Module ActionNet.

Record t := mk {
  fc : torch.Linear R
}.

Definition init (input_size output_size : Z) (p : torch.params R) : t :=
  mk (torch.new_Linear input_size output_size p).

Definition forward (self : t) (h_t : tensor2 R) : option (tensor2 R) :=
  obind (torch.Linear_forward (fc self) h_t) (fun a =>
  Some (torch.log_softmax a)).

End ActionNet.

Module BaselineNet.

Record t := mk {
  fc : torch.Linear Q
}.

Definition init (input_size output_size : Z) (p : torch.params Q) : t :=
  mk (torch.new_Linear input_size output_size p).

Definition forward (self : t) (h_t : tensor2 Q) : option (tensor2 Q) :=
  obind (torch.Linear_forward (fc self) h_t) (fun a =>
  Some (torch.relu a)).

End BaselineNet.

(** ** Python dictionaries

    A dictionary keeps its keys in insertion order; assigning to a key that
    is present replaces the value where the key stands. *)

Definition dict (V : Type) : Type := list (String.string * V).

Fixpoint getitem {V} (k : String.string) (d : dict V) : option V :=
  match d with
  | [] => None
  | (k', v) :: r => if String.eqb k' k then Some v else getitem k r
  end.

Fixpoint setitem {V} (k : String.string) (v : V) (d : dict V) : dict V :=
  match d with
  | [] => [(k, v)]
  | (k', v') :: r =>
      if String.eqb k' k then (k', v) :: r else (k', v') :: setitem k v r
  end.

(** [{key(a): val(a) for a in xs}]. *)
Definition comprehension {A V} (key : A -> String.string) (val : A -> V)
    (xs : list A) : dict V :=
  fold_left (fun d a => setitem (key a) (val a) d) xs [].

(** [d.update(e)]. *)
Definition dict_update {V} (d e : dict V) : dict V :=
  fold_left (fun d kv => setitem (fst kv) (snd kv) d) e d.

Definition keys {V} (d : dict V) : list String.string := map fst d.

(** ** The trainer

    The model, the optimizer, the loaders, the callbacks, the logger and
    the class [AverageMeter] are not part of [trainer.py]: they are the
    parameters of this section.  [world] is the state they act on.  Lists
    of names are objects of a heap, so that the list a caller passes and
    the list the trainer keeps are the same object. *)

Module Trainer.

Definition ref : Type := nat.
Definition heap : Type := ref -> list String.string.

Definition store (r : ref) (v : list String.string) (hp : heap) : heap :=
  fun r' => if Nat.eqb r' r then v else hp r'.

Record t := mk {
  stop_training : bool;
  watch : ref;
  val_watch : ref
}.

(** ['loss' in names]. *)
Definition has_loss (names : list String.string) : bool :=
  existsb (String.eqb "loss"%string) names.

(** [if 'loss' not in names: names.insert(0, 'loss')], on the list object
    [r]. *)
Definition insert_loss (r : ref) (hp : heap) : heap :=
  if has_loss (hp r) then hp else store r ("loss"%string :: hp r) hp.

(** [Trainer(model, optimizer, watch, val_watch)]: the two lists are
    modified in place. *)
Definition init (watch val_watch : ref) (hp : heap) : t * heap :=
  (mk false watch val_watch, insert_loss val_watch (insert_loss watch hp)).

Section Methods.
Context {batch tensor scalar meter world : Type}.

(** [utils.AverageMeter()], [meter.update(val, n)] and [meter.avg]. *)
Variable AverageMeter : meter.
Variable update : scalar -> Z -> meter -> meter.
Variable avg : meter -> scalar.

(** [x.size()[0]] of a batch [(x, y)] and [t.data[0]] of a metric. *)
Variable batch_size : batch -> Z.
Variable data0 : tensor -> scalar.

(** [self.model.forward(x, y)], with [is_training] when it is passed;
    [self.optimizer.zero_grad()], [loss.backward()],
    [self.optimizer.step()]; [logger.info(msg)] and the format
    ['{:.3f}']. *)
Variable model_forward : batch -> option bool -> M world (dict tensor).
Variable zero_grad : M world unit.
Variable backward : tensor -> M world unit.
Variable step : M world unit.
Variable logger_info : String.string -> M world unit.
Variable format3 : scalar -> String.string.

(** What the methods run on: the trainer, the lists and the world. *)
Record state := mkState {
  self : t;
  lists : heap;
  env : world
}.

Record callback := mkCallback {
  on_batch_end : Z -> Z -> dict tensor -> M state unit;
  on_epoch_end : Z -> dict scalar -> M state unit
}.

(** A call that acts on the world only. *)
Definition on_world {A} (c : M world A) : M state A :=
  fun st => let (w, a) := c (env st) in (mkState (self st) (lists st) w, a).

(** [for cbk in callbacks: f(cbk)]. *)
Fixpoint each (callbacks : list callback) (f : callback -> M state unit)
  : M state unit :=
  match callbacks with
  | [] => ret tt
  | cbk :: r => _ <- f cbk ;; each r f
  end.

(** [{name: AverageMeter() for name in self.watch}]. *)
Definition new_log : M state (dict meter) :=
  gets (fun st => comprehension (fun name => name) (fun _ => AverageMeter)
                    (lists st (watch (self st)))).

(** [for name, avg in log.items(): log[name].update(metric[name].data[0], n)]:
    a [KeyError] when the metric has no entry of that name. *)
Fixpoint update_all (metric : dict tensor) (n : Z) (log : dict meter)
  : option (dict meter) :=
  match log with
  | [] => Some []
  | (name, m) :: r =>
      match getitem name metric with
      | None => None
      | Some v =>
          match update_all metric n r with
          | None => None
          | Some r' => Some ((name, update (data0 v) n m) :: r')
          end
      end
  end.

(** The loop of [train_one_epoch] from batch number [i] on. *)
Fixpoint train_batches (epoch : Z) (callbacks : list callback) (i : Z)
    (batches : list batch) (epoch_log : dict meter) : M state (dict meter) :=
  match batches with
  | [] => ret epoch_log
  | b :: r =>
      metric <- on_world (model_forward b (Some true)) ;;
      loss <- lift (getitem "loss"%string metric) ;;
      epoch_log <- lift (update_all metric (batch_size b) epoch_log) ;;
      _ <- on_world zero_grad ;;
      _ <- on_world (backward loss) ;;
      _ <- on_world step ;;
      _ <- each callbacks (fun cbk => on_batch_end cbk epoch i metric) ;;
      train_batches epoch callbacks (i + 1) r epoch_log
  end.

(** A loader is the sequence of batches it yields; the progress bar is
    left out. *)
Definition train_one_epoch (epoch : Z) (train_loader : list batch)
    (callbacks : list callback) : M state (dict scalar) :=
  epoch_log <- new_log ;;
  epoch_log <- train_batches epoch callbacks 0 train_loader epoch_log ;;
  ret (comprehension fst (fun item => avg (snd item)) epoch_log).

(** The loop of [validate]. *)
Fixpoint validate_batches (batches : list batch) (val_log : dict meter)
  : M state (dict meter) :=
  match batches with
  | [] => ret val_log
  | b :: r =>
      metric <- on_world (model_forward b None) ;;
      val_log <- lift (update_all metric (batch_size b) val_log) ;;
      validate_batches r val_log
  end.

Definition val_name (name : String.string) : String.string :=
  String.append "val_"%string name.

Definition validate (epoch : Z) (val_loader : list batch) : M state (dict scalar) :=
  val_log <- new_log ;;
  val_log <- validate_batches val_loader val_log ;;
  ret (comprehension (fun item => val_name (fst item)) (fun item => avg (snd item))
         val_log).

(** [' '.join(['{}: {:.3f}'.format(name, avg) for name, avg in log.items()])]. *)
Definition message (log : dict scalar) : String.string :=
  String.concat " "%string
    (map (fun item => String.append (fst item)
                        (String.append ": "%string (format3 (snd item))))
         log).

(** The body of the loop of [train] for one epoch, after the test of
    [stop_training]. *)
Definition run_epoch (epoch : Z) (train_loader val_loader : list batch)
    (callbacks : list callback) : M state unit :=
  epoch_log <- train_one_epoch epoch train_loader callbacks ;;
  val_log <- validate epoch val_loader ;;
  _ <- on_world (logger_info (message epoch_log)) ;;
  _ <- on_world (logger_info (message val_log)) ;;
  let epoch_log := dict_update epoch_log val_log in
  each callbacks (fun cbk => on_epoch_end cbk epoch epoch_log).

(** The loop of [train] over the epochs that are left; [return] leaves the
    loop and the method. *)
Fixpoint train_epochs (epochs : list Z) (train_loader val_loader : list batch)
    (callbacks : list callback) : M state unit :=
  match epochs with
  | [] => ret tt
  | epoch :: r =>
      stop <- gets (fun st => stop_training (self st)) ;;
      if stop then ret tt
      else
        _ <- run_epoch epoch train_loader val_loader callbacks ;;
        train_epochs r train_loader val_loader callbacks
  end.

(** [range(start, stop)]. *)
Definition range_from (start stop : Z) : list Z :=
  map (fun k => start + k) (range (stop - start)).

Definition train (train_loader val_loader : list batch) (start_epoch epochs : Z)
    (callbacks : list callback) : M state unit :=
  train_epochs (range_from start_epoch epochs) train_loader val_loader callbacks.

End Methods.

End Trainer.

(** ** Vocabulary of the properties *)

(** The default element for positions outside a list of tensors. *)
Definition empty4 : tensor4 := T4 0 0 0 0 (fun _ _ _ _ => 0%Q).

(** Every coordinate of a location batch lies in [[-1, 1]]. *)
Definition in_unit_square (l : tensor2 Q) : Prop :=
  forall i j, 0 <= i < nrows l -> 0 <= j < ncols l ->
              (-1 <= at2 l i j)%Q /\ (at2 l i j <= 1)%Q.

(** The retina has cached no image shape yet, or the shape of [x]. *)
Definition cache_fits (self : retina.t) (x : tensor4) : Prop :=
  retina.imgShape self = None \/ retina.imgShape self = Some (dimH x, dimW x).

(** The retina as [extract_patch] leaves it after a call on an image of
    [H] by [W] pixels. *)
Definition cached (H W : Z) (self : retina.t) : retina.t :=
  fst (retina.cache_imgShape H W self).

(** [extract_patch] without the state: what it returns from the cached
    shape. *)
Definition extract_from (shape : Z * Z) (x : tensor4) (l : tensor2 Q) (size : Z)
  : option tensor4 :=
  obind (retina.pixel_coords l shape) (fun coords =>
  obind (torch.ConstantPad2d (retina.padding size) 0 x) (fun x' =>
  obind (omap (retina.cut x' coords size) (range (dimB x))) torch.cat0)).

(** The image shape that [extract_patch] reads on an image [x]: the cached
    one when there is one. *)
Definition shape_used (self : retina.t) (x : tensor4) : Z * Z :=
  match retina.imgShape self with
  | Some shape => shape
  | None => (dimH x, dimW x)
  end.

(** The sides that the first loop of [foveate] passes to [extract_patch],
    for [n] iterations starting from [size]. *)
Fixpoint requested_sizes (scale : Q) (n : nat) (size : Z) : list Z :=
  match n with
  | O => []
  | S n' => size :: requested_sizes scale n' (retina.next_size scale size)
  end.

(** The retina after a loop of [n] calls of [extract_patch] on [x]. *)
Definition state_after (n : nat) (self : retina.t) (x : tensor4) : retina.t :=
  match n with
  | O => self
  | S _ => cached (dimH x) (dimW x) self
  end.

(** [foveate] without the state. *)
Definition resized_from (self : retina.t) (x : tensor4) (l : tensor2 Q)
  : option (list tensor4) :=
  obind (omap (extract_from (shape_used self x) x l)
              (requested_sizes (retina.scale self)
                 (Z.to_nat (retina.num_patches self)) (retina.patch_size self)))
        (retina.resize_all (retina.patch_size self)).

Definition foveate_from (self : retina.t) (x : tensor4) (l : tensor2 Q)
  : option (tensor2 Q) :=
  obind (resized_from self x l) (fun patches =>
  obind (torch.cat1 patches) torch.view_rows).

(** The configurations and inputs on which the retina is used as designed:
    an integer scale factor [s] of at least 1, an even positive base side,
    at least one patch, a square image whose shape is the cached one, at
    least one batch element, and one location in [[-1, 1]] by [[-1, 1]] for
    each of them. *)
Record valid_call (self : retina.t) (x : tensor4) (l : tensor2 Q) (s : Z) : Prop := {
  v_scale : retina.scale self = inject_Z s;
  v_scale_pos : 1 <= s;
  v_patch_pos : 0 < retina.patch_size self;
  v_patch_even : Z.even (retina.patch_size self) = true;
  v_num : 1 <= retina.num_patches self;
  v_cache : cache_fits self x;
  v_square : dimH x = dimW x;
  v_height : 0 <= dimH x;
  v_batch : 1 <= dimB x;
  v_cols : ncols l = 2;
  v_rows : nrows l = dimB x;
  v_unit : in_unit_square l
}.





(** [GlimpseNet.forward] without the state. *)
Definition glimpse_from (self : GlimpseNet.t) (x_t : tensor4) (l_t : tensor2 Q)
  : option (tensor2 Q) :=
  obind (foveate_from (GlimpseNet.retina self) x_t l_t) (fun glimpse =>
  obind (torch.Linear_forward (GlimpseNet.fc1 self) glimpse) (fun h_what =>
  obind (torch.Linear_forward (GlimpseNet.fc3 self) (torch.relu h_what)) (fun what =>
  obind (torch.Linear_forward (GlimpseNet.fc2 self) l_t) (fun h_where =>
  obind (torch.Linear_forward (GlimpseNet.fc4 self) (torch.relu h_where)) (fun where_ =>
  obind (torch.add what where_) (fun s =>
  Some (torch.relu s))))))).

(** The layers of a glimpse network have the sizes that [GlimpseNet.init]
    gives them for [hidden_g], [hidden_l] and [num_channel]. *)
Definition sized (self : GlimpseNet.t) (hidden_g hidden_l num_channel : Z) : Prop :=
  let r := GlimpseNet.retina self in
  torch.in_features (GlimpseNet.fc1 self) =
    retina.num_patches r * retina.patch_size r * retina.patch_size r * num_channel /\
  torch.out_features (GlimpseNet.fc1 self) = hidden_g /\
  torch.in_features (GlimpseNet.fc2 self) = 2 /\
  torch.out_features (GlimpseNet.fc2 self) = hidden_l /\
  torch.in_features (GlimpseNet.fc3 self) = hidden_g /\
  torch.out_features (GlimpseNet.fc3 self) = hidden_g + hidden_l /\
  torch.in_features (GlimpseNet.fc4 self) = hidden_l /\
  torch.out_features (GlimpseNet.fc4 self) = hidden_g + hidden_l.




(** The pixel on which the windows of batch element [i] are centred, when
    the cached shape is the shape of [x]: the row comes from the second
    coordinate of the location and the width of the image, the column from
    the first coordinate and the height. *)
Definition centre_row (x : tensor4) (l : tensor2 Q) (i : Z) : Z :=
  torch.long ((1 # 2) * ((at2 l i 1 + 1) * inject_Z (dimW x)))%Q.
Definition centre_col (x : tensor4) (l : tensor2 Q) (i : Z) : Z :=
  torch.long ((1 # 2) * ((at2 l i 0 + 1) * inject_Z (dimH x)))%Q.



(** ** Concrete inputs *)

(** An image batch whose pixels are numbered from 1 in storage order. *)
Definition ramp (B C H W : Z) : tensor4 :=
  T4 B C H W (fun b c h w => inject_Z (((b * C + c) * H + h) * W + w + 1)).

(** A location batch from a list of pairs. *)
Definition locations (ls : list (Q * Q)) : tensor2 Q :=
  T2 (Z.of_nat (length ls)) 2
     (fun i j => let p := nth (Z.to_nat i) ls (0, 0)%Q in
                 if j =? 0 then fst p else snd p).

Definition retina_2_2_2 : retina.t := retina.init 2 2 2.
Definition image_2x4x4 : tensor4 := ramp 2 1 4 4.
Definition two_locations : tensor2 Q := locations [(0, 0)%Q; (1, -1)%Q].

(** A batch of two hidden states of width 2, a location network with
    standard deviation 1/2 and one without noise. *)
Definition hidden_2x2 : tensor2 R :=
  T2 2 2 (fun i j => if (i =? 0) && (j =? 0) then 1%R else 0%R).

Definition location_net (std : R) : LocationNet.t :=
  LocationNet.init 2 2 std
    (torch.mkParams (fun j k => if j =? k then 1%R else 0%R) (fun _ => 0%R)).

Definition zero_draws : np_random.state := np_random.mk (fun _ => 0%R) 0.
Definition unit_draws : np_random.state := np_random.mk (fun _ => 1%R) 5.

(** A recurrent core with 2 inputs and 3 hidden units, and a generator. *)
Definition unit_params : torch.params Q :=
  torch.mkParams (fun j k => if j =? k then 1%Q else 0%Q) (fun _ => 0%Q).

Definition core_2_3 : core_network.t := core_network.init 2 3 unit_params unit_params.

Definition counting_generator : torch_random.generator :=
  torch_random.mk (fun k => N.of_nat k * 4194304)%N 0.

(** A glimpse network with 3 and 2 hidden units over two patches of base
    side 2 with scale 2, for images of one channel. *)
Definition glimpse_net : GlimpseNet.t :=
  GlimpseNet.init 3 2 2 2 2 1 unit_params unit_params unit_params unit_params.

(** One glimpse embedding against three hidden states, and one image
    against three locations. *)
Definition one_glimpse : tensor2 Q := T2 1 2 (fun _ _ => 1%Q).
Definition three_hidden : tensor2 Q := T2 3 3 (fun i j => inject_Z (i - j)).
Definition two_hidden_wide : tensor2 Q := T2 1 4 (fun _ _ => 1%Q).
Definition two_glimpses : tensor2 Q := T2 2 2 (fun _ _ => 1%Q).
Definition image_1x4x4 : tensor4 := ramp 1 1 4 4.
Definition three_locations : tensor2 Q :=
  locations [(0, 0)%Q; (1, -1)%Q; (-1, 1)%Q].

(** The image batch [image_2x4x4] and the locations [two_locations] with
    their second row replaced. *)
Definition image_2x4x4_other : tensor4 :=
  T4 2 1 4 4 (fun b c h w => if b =? 0 then at4 image_2x4x4 b c h w else (7 # 3)%Q).
Definition two_locations_other : tensor2 Q :=
  locations [(0, 0)%Q; (-1, 1 # 2)%Q].

(** An action network with two classes, and a batch of two hidden states
    for the recurrent core. *)
Definition action_net : ActionNet.t :=
  ActionNet.init 2 2
    (torch.mkParams (fun j k => if j =? k then 1%R else 0%R) (fun _ => 0%R)).
Definition hidden_2x3 : tensor2 Q := T2 2 3 (fun i j => inject_Z (i - j)).

(** A trainer for the examples.  A batch is its size, metrics and averages
    are integers, a meter holds a sum and a count, and the world counts the
    steps of the optimizer.  The model reports a loss and an accuracy; the
    poor model reports a loss only.  The stopping callback sets
    [stop_training] at the end of every epoch.  The watch list, object 0,
    holds ['acc'] before the trainer is built; the list of validation
    names, object 1, is empty. *)
Definition toy_forward (b : Z) (is_training : option bool) : M nat (dict Z) :=
  fun w => (w, Some [("loss"%string, b); ("acc"%string, 1)]).
Definition poor_forward (b : Z) (is_training : option bool) : M nat (dict Z) :=
  fun w => (w, Some [("loss"%string, b)]).
Definition toy_step : M nat unit := fun w => (S w, Some tt).
Definition toy_skip : M nat unit := fun w => (w, Some tt).
Definition toy_update (v n : Z) (m : Z * Z) : Z * Z := (fst m + v * n, snd m + n).
Definition toy_avg (m : Z * Z) : Z := fst m / snd m.
Definition toy_format (a : Z) : String.string := "0.000"%string.

Definition stopper : @Trainer.callback Z Z nat :=
  Trainer.mkCallback
    (fun _ _ _ => ret tt)
    (fun _ _ st =>
       (Trainer.mkState
          (Trainer.mk true (Trainer.watch (Trainer.self st))
             (Trainer.val_watch (Trainer.self st)))
          (Trainer.lists st) (Trainer.env st), Some tt)).

Definition toy_lists : Trainer.heap :=
  fun r => if Nat.eqb r 0 then ["acc"%string] else [].

Definition toy_state : @Trainer.state nat :=
  Trainer.mkState (fst (Trainer.init 0%nat 1%nat toy_lists))
                  (snd (Trainer.init 0%nat 1%nat toy_lists)) 0%nat.

(** The toy trainer after the training and after the validation of an
    epoch. *)
Definition toy_trained : @Trainer.state nat :=
  fst (Trainer.train_one_epoch (0, 0) toy_update toy_avg (fun b => b) (fun v => v)
         toy_forward toy_skip (fun _ => toy_skip) toy_step 0 [2; 3] [stopper] toy_state).
Definition toy_validated : @Trainer.state nat :=
  fst (Trainer.validate (0, 0) toy_update toy_avg (fun b => b) (fun v => v)
         toy_forward 0 [4] toy_trained).

(** * Properties *)

(** ** The model on small inputs *)

(** One image of 4 by 4 pixels numbered 1 to 16, two patches of base side 2
    with scale 2, looked at in the centre: the first patch is the middle 2
    by 2 block, the second the whole image averaged over 2 by 2 blocks. *)
Example foveate_centre :
  option_map rows_of
    (snd (retina.foveate (ramp 1 1 4 4) (locations [(0, 0)%Q]) (retina.init 2 2 2)))
  = Some [[6; 7; 10; 11; 14 # 4; 22 # 4; 46 # 4; 54 # 4]%Q].
Proof. vm_compute. reflexivity. Qed.

(** The same at the corner [(1, 1)]: only the last pixel is inside the
    first patch, the rest is padding. *)
Example foveate_corner :
  option_map rows_of
    (snd (retina.foveate (ramp 1 1 4 4) (locations [(1, 1)%Q]) (retina.init 2 2 2)))
  = Some [[16; 0; 0; 0; 54 # 4; 0 # 4; 0 # 4; 0 # 4]%Q].
Proof. vm_compute. reflexivity. Qed.

(** The first call caches the image shape, and a later call keeps it. *)
Example foveate_caches_shape :
  retina.imgShape
    (fst (retina.foveate (ramp 1 1 4 4) (locations [(0, 0)%Q]) (retina.init 2 2 2)))
  = Some (4, 4) /\
  retina.imgShape
    (fst (retina.foveate (ramp 1 1 6 6) (locations [(0, 0)%Q])
            (fst (retina.foveate (ramp 1 1 4 4) (locations [(0, 0)%Q])
                    (retina.init 2 2 2)))))
  = Some (4, 4).
Proof. split; vm_compute; reflexivity. Qed.

(** The recurrent core on one glimpse embedding and one hidden state. *)
Example core_forward_row :
  option_map rows_of
    (core_network.forward core_2_3 one_glimpse (T2 1 3 (fun _ j => inject_Z (j - 1))))
  = Some [[0; 1; 1]%Q].
Proof. vm_compute. reflexivity. Qed.

(** Four draws of the generator give the locations of two batch elements. *)
Example init_state_locations :
  option_map (fun hl => rows_of (snd hl))
    (snd (core_network.init_state core_2_3 2 false counting_generator))
  = Some [[-16777216 # 16777216; -8388608 # 16777216];
          [0 # 16777216; 8388608 # 16777216]]%Q.
Proof. vm_compute. reflexivity. Qed.

(** ** Arithmetic of the coordinate conversion *)

Lemma range_In (n i : Z) : In i (range n) <-> 0 <= i < n.
Proof.
  unfold range. rewrite in_map_iff. split.
  - intros (k & <- & Hk). apply in_seq in Hk. lia.
  - intros Hi. exists (Z.to_nat i). split; [lia|]. apply in_seq. lia.
Qed.

Lemma range_length (n : Z) : length (range n) = Z.to_nat n.
Proof. unfold range. now rewrite length_map, length_seq. Qed.

Lemma range_nth (n i : Z) : 0 <= i < n -> nth (Z.to_nat i) (range n) 0 = i.
Proof.
  intros Hi. unfold range.
  change 0 with (Z.of_nat 0). rewrite map_nth, seq_nth by lia. lia.
Qed.

Lemma long_range (v : Q) (n : Z) :
  (0 <= v)%Q -> (v <= inject_Z n)%Q -> 0 <= torch.long v <= n.
Proof.
  destruct v as [a d]. unfold torch.long, Qle. simpl. intros H0 Hn.
  assert (Ha : 0 <= a) by lia.
  rewrite Z.quot_div_nonneg by lia. split.
  - apply Z.div_pos; lia.
  - apply Z.div_le_upper_bound; lia.
Qed.

Lemma pixel_in_image (q : Q) (n : Z) :
  0 <= n -> (-1 <= q)%Q -> (q <= 1)%Q ->
  0 <= torch.long ((1 # 2) * ((q + 1) * inject_Z n))%Q <= n.
Proof.
  intros Hn Hlo Hhi.
  assert (Hn' : (0 <= inject_Z n)%Q) by (unfold Qle; simpl; lia).
  apply long_range; nra.
Qed.

(** ** Running the state monad *)

Lemma cached_shape_used H W self x :
  H = dimH x -> W = dimW x ->
  retina.imgShape (cached H W self) = Some (shape_used self x).
Proof.
  intros -> ->. unfold cached, shape_used, retina.cache_imgShape, modify. simpl.
  destruct (retina.imgShape self) eqn:E; simpl; [exact E|reflexivity].
Qed.

Lemma extract_patch_run x l size self :
  retina.extract_patch x l size self =
  (cached (dimH x) (dimW x) self, extract_from (shape_used self x) x l size).
Proof.
  pose proof (cached_shape_used (dimH x) (dimW x) self x eq_refl eq_refl) as Hc.
  unfold retina.extract_patch, extract_from, bind, lift, retina.read_imgShape.
  fold (cached (dimH x) (dimW x) self).
  change (retina.cache_imgShape (dimH x) (dimW x) self)
    with (cached (dimH x) (dimW x) self, Some tt).
  cbv iota beta. rewrite Hc.
  destruct (retina.pixel_coords l _); simpl; [|reflexivity].
  destruct (torch.ConstantPad2d _ _ _); simpl; [|reflexivity].
  destruct (omap _ _); reflexivity.
Qed.

Lemma cached_config H W self :
  retina.patch_size (cached H W self) = retina.patch_size self /\
  retina.num_patches (cached H W self) = retina.num_patches self /\
  retina.scale (cached H W self) = retina.scale self.
Proof.
  unfold cached, retina.cache_imgShape, modify. simpl.
  destruct (retina.imgShape self); simpl; auto.
Qed.

Lemma cached_shape self x :
  cache_fits self x ->
  retina.imgShape (cached (dimH x) (dimW x) self) = Some (dimH x, dimW x).
Proof.
  unfold cached, retina.cache_imgShape, modify. simpl.
  intros [E|E]; rewrite E; simpl; auto.
Qed.

Lemma shape_used_cached self x :
  shape_used (cached (dimH x) (dimW x) self) x = shape_used self x.
Proof.
  unfold shape_used at 1.
  now rewrite (cached_shape_used (dimH x) (dimW x) self x eq_refl eq_refl).
Qed.

Lemma shape_used_fits self x :
  cache_fits self x -> shape_used self x = (dimH x, dimW x).
Proof. unfold shape_used. intros [E|E]; rewrite E; reflexivity. Qed.

Lemma cached_twice H W self : cached H W (cached H W self) = cached H W self.
Proof.
  unfold cached, retina.cache_imgShape, modify. simpl.
  destruct (retina.imgShape self) eqn:E; simpl; [now rewrite E|reflexivity].
Qed.

(** ** Lists of optional results *)

Lemma omap_total {A B} (f : A -> option B) (P : B -> Prop) xs :
  (forall x, In x xs -> exists y, f x = Some y /\ P y) ->
  exists ys, omap f xs = Some ys /\ Forall P ys /\ length ys = length xs.
Proof.
  induction xs as [|x r IH]; intros Hf; simpl.
  - exists []. auto.
  - destruct (Hf x) as (y & Ey & Py); [now left|].
    destruct IH as (ys & Eys & Pys & Len); [intros; apply Hf; now right|].
    rewrite Ey, Eys. exists (y :: ys). simpl. auto.
Qed.

Lemma omap_length {A B} (f : A -> option B) xs ys :
  omap f xs = Some ys -> length ys = length xs.
Proof.
  revert ys. induction xs as [|x r IH]; simpl; intros ys E.
  - now inversion E.
  - destruct (f x); [|discriminate]. destruct (omap f r); [|discriminate].
    inversion E. simpl. f_equal. now apply IH.
Qed.

Lemma omap_nth {A B} (f : A -> option B) xs ys k dx dy :
  omap f xs = Some ys -> (k < length xs)%nat ->
  f (nth k xs dx) = Some (nth k ys dy).
Proof.
  revert ys k. induction xs as [|x r IH]; simpl; intros ys k E Hk; [lia|].
  destruct (f x) eqn:Ex; [|discriminate].
  destruct (omap f r) eqn:Er; [|discriminate].
  inversion E; subst. destruct k; simpl; [assumption|].
  apply IH; [reflexivity|lia].
Qed.

(** ** Shapes of the library calls *)

Lemma total_ones f ts :
  Forall (fun t => f t = 1) ts -> torch.total f ts = Z.of_nat (length ts).
Proof.
  unfold torch.total.
  induction 1 as [|t r Ht _ IH]; simpl; [reflexivity|].
  rewrite Ht, IH. lia.
Qed.

Lemma total_const f c ts :
  Forall (fun t => f t = c) ts -> torch.total f ts = Z.of_nat (length ts) * c.
Proof.
  unfold torch.total.
  induction 1 as [|t r Ht _ IH]; [reflexivity|].
  cbn [fold_right length]. rewrite Ht, IH, Nat2Z.inj_succ, Z.mul_succ_l. lia.
Qed.

Lemma shape4_inv t B C H W :
  shape4 t = (B, C, H, W) <->
  dimB t = B /\ dimC t = C /\ dimH t = H /\ dimW t = W.
Proof.
  unfold shape4. split.
  - intros E. inversion E. auto.
  - intros (-> & -> & -> & ->). reflexivity.
Qed.

Lemma cat0_shape ts C H W :
  ts <> [] ->
  Forall (fun t => shape4 t = (1, C, H, W)) ts ->
  exists t, torch.cat0 ts = Some t /\
            shape4 t = (Z.of_nat (length ts), C, H, W).
Proof.
  intros Hne Hall. destruct ts as [|t r]; [congruence|].
  unfold torch.cat0.
  assert (Ht : shape4 t = (1, C, H, W)) by (inversion Hall; assumption).
  apply shape4_inv in Ht. destruct Ht as (HB & HC & HH & HW).
  assert (Hr : forallb (torch.same_CHW t) r = true).
  { apply forallb_forall. intros u Hu.
    rewrite Forall_forall in Hall. specialize (Hall u (or_intror Hu)).
    apply shape4_inv in Hall. destruct Hall as (_ & HC' & HH' & HW').
    unfold torch.same_CHW. rewrite HC, HH, HW, HC', HH', HW', !Z.eqb_refl.
    reflexivity. }
  rewrite Hr. eexists. split; [reflexivity|].
  apply shape4_inv. cbn [dimB dimC dimH dimW]. repeat split; try assumption.
  apply total_ones.
  eapply Forall_impl; [|exact Hall]. intros u Hu. now apply shape4_inv in Hu.
Qed.

Lemma cat1_shape ts B C H W :
  ts <> [] ->
  Forall (fun t => shape4 t = (B, C, H, W)) ts ->
  exists t, torch.cat1 ts = Some t /\
            shape4 t = (B, Z.of_nat (length ts) * C, H, W).
Proof.
  intros Hne Hall. destruct ts as [|t r]; [congruence|].
  unfold torch.cat1.
  assert (Ht : shape4 t = (B, C, H, W)) by (inversion Hall; assumption).
  apply shape4_inv in Ht. destruct Ht as (HB & HC & HH & HW).
  assert (Hr : forallb (torch.same_BHW t) r = true).
  { apply forallb_forall. intros u Hu.
    rewrite Forall_forall in Hall. specialize (Hall u (or_intror Hu)).
    apply shape4_inv in Hall. destruct Hall as (HB' & _ & HH' & HW').
    unfold torch.same_BHW. rewrite HB, HH, HW, HB', HH', HW', !Z.eqb_refl.
    reflexivity. }
  rewrite Hr. eexists. split; [reflexivity|].
  apply shape4_inv. cbn [dimB dimC dimH dimW]. repeat split; try assumption.
  apply total_const.
  eapply Forall_impl; [|exact Hall]. intros u Hu. now apply shape4_inv in Hu.
Qed.

Lemma slice_bounds_inside n a size :
  0 <= a -> 0 <= size -> a + size <= n ->
  torch.slice_bounds n a (a + size) = (a, a + size).
Proof.
  intros Ha Hs Hn. unfold torch.slice_bounds, torch.slice_index.
  destruct (a <? 0) eqn:E1; [lia|].
  destruct (a + size <? 0) eqn:E2; [lia|].
  f_equal; lia.
Qed.

Lemma even_half size : Z.even size = true -> 2 * (size / 2) = size.
Proof.
  intros He. apply Z.even_spec in He. destruct He as [k ->].
  replace (2 * k) with (k * 2) by lia. rewrite Z.div_mul by lia. lia.
Qed.

(** ** One patch: [extract_patch] on a square image and an even side *)

Lemma pixel_coords_two l shape :
  ncols l = 2 ->
  retina.pixel_coords l shape =
  Some (T2 (nrows l) 2
          (fun i j =>
             torch.long ((1 # 2) *
                         ((at2 l i j + 1) *
                          inject_Z (if j =? 0 then fst shape else snd shape)))%Q)).
Proof.
  intros E. unfold retina.pixel_coords, torch.bidx. rewrite E. reflexivity.
Qed.

Lemma extract_from_square x l size :
  dimH x = dimW x -> 0 <= dimH x ->
  ncols l = 2 -> nrows l = dimB x -> 1 <= dimB x ->
  in_unit_square l ->
  0 <= size -> Z.even size = true ->
  exists p, extract_from (dimH x, dimW x) x l size = Some p /\
            shape4 p = (dimB x, dimC x, size, size).
Proof.
  intros Hsq HH Hc Hr HB Hl Hs He.
  unfold extract_from. rewrite pixel_coords_two by assumption.
  cbn [obind]. unfold torch.ConstantPad2d, retina.padding.
  pose proof (even_half size He) as Hhalf.
  destruct ((dimH x + 2 * (size / 2) <? 0) || (dimW x + 2 * (size / 2) <? 0)) eqn:Epad.
  { apply orb_true_iff in Epad. destruct Epad as [E|E]; apply Z.ltb_lt in E; lia. }
  cbn [obind].
  match goal with |- context [omap ?f ?xs] =>
    destruct (omap_total f (fun t => shape4 t = (1, dimC x, size, size)) xs)
      as (ps & Eps & Hps & Len)
  end.
  { intros i Hi. apply range_In in Hi.
    unfold retina.cut, retina.from_y, retina.from_x, torch.getitem.
    cbn [nrows at2].
    assert (Ei : (0 <=? i) && (i <? nrows l) = true).
    { apply andb_true_iff. split; [apply Z.leb_le|apply Z.ltb_lt]; lia. }
    rewrite Ei. cbn [obind].
    eexists. split; [reflexivity|].
    destruct (Hl i 0) as [Hx0 Hx1]; [lia|lia|].
    destruct (Hl i 1) as [Hy0 Hy1]; [lia|lia|].
    pose proof (pixel_in_image _ _ HH Hx0 Hx1) as Hfx.
    pose proof (pixel_in_image _ _ HH Hy0 Hy1) as Hfy.
    unfold torch.slice_patch. cbn [dimH dimW dimC fst snd Z.eqb].
    rewrite <- Hsq.
    rewrite !slice_bounds_inside by lia.
    apply shape4_inv. cbn [dimB dimC dimH dimW fst snd]. repeat split; lia. }
  rewrite Eps. cbn [obind].
  destruct (cat0_shape ps (dimC x) size size) as (p & Ep & Sp).
  { intros ->. simpl in Len. rewrite range_length in Len. lia. }
  { exact Hps. }
  exists p. split; [exact Ep|].
  rewrite Sp, Len, range_length. f_equal. f_equal. f_equal. lia.
Qed.

(** ** The two loops of [foveate] *)

Lemma extract_all_run n size x l self :
  retina.extract_all n size x l self =
  (state_after n self x,
   omap (extract_from (shape_used self x) x l)
        (requested_sizes (retina.scale self) n size)).
Proof.
  revert size self. induction n as [|n IH]; intros size self.
  - reflexivity.
  - cbn [retina.extract_all requested_sizes omap state_after].
    unfold bind at 1. rewrite extract_patch_run.
    destruct (extract_from (shape_used self x) x l size) as [p|]; [|reflexivity].
    unfold bind, gets. rewrite IH.
    destruct (cached_config (dimH x) (dimW x) self) as (_ & _ & Es).
    rewrite Es, shape_used_cached.
    replace (state_after n (cached (dimH x) (dimW x) self) x)
      with (cached (dimH x) (dimW x) self)
      by (destruct n; simpl; [reflexivity|now rewrite cached_twice]).
    destruct (omap _ _); reflexivity.
Qed.

Lemma state_after_config n self x :
  retina.patch_size (state_after n self x) = retina.patch_size self /\
  retina.num_patches (state_after n self x) = retina.num_patches self /\
  retina.scale (state_after n self x) = retina.scale self.
Proof. destruct n; simpl; [auto|apply cached_config]. Qed.

Lemma resized_patches_run x l self :
  retina.resized_patches x l self =
  (state_after (Z.to_nat (retina.num_patches self)) self x, resized_from self x l).
Proof.
  unfold retina.resized_patches, retina.extracted_patches, resized_from, bind, gets, lift.
  rewrite extract_all_run.
  destruct (omap _ _); [|reflexivity]. cbn [obind].
  now destruct (state_after_config (Z.to_nat (retina.num_patches self)) self x) as (-> & _).
Qed.

Lemma foveate_run x l self :
  retina.foveate x l self =
  (state_after (Z.to_nat (retina.num_patches self)) self x, foveate_from self x l).
Proof.
  unfold retina.foveate, foveate_from, bind, lift.
  rewrite resized_patches_run.
  destruct (resized_from self x l); [|reflexivity]. cbn [obind].
  destruct (torch.cat1 _); reflexivity.
Qed.

(** ** The sides of the patches *)

Lemma next_size_integer s size :
  retina.next_size (inject_Z s) size = s * size.
Proof.
  unfold retina.next_size, torch.long. simpl. apply Z.quot_1_r.
Qed.

Lemma requested_sizes_length scale n size :
  length (requested_sizes scale n size) = n.
Proof.
  revert size. induction n as [|n IH]; intros size; simpl; [reflexivity|].
  now rewrite IH.
Qed.

Lemma requested_sizes_integer s n size i :
  (i < n)%nat ->
  nth i (requested_sizes (inject_Z s) n size) 0 = size * s ^ Z.of_nat i.
Proof.
  revert size i. induction n as [|n IH]; intros size i Hi; [lia|].
  cbn [requested_sizes]. destruct i as [|i].
  - simpl. lia.
  - cbn [nth]. rewrite IH by lia. rewrite next_size_integer.
    rewrite Nat2Z.inj_succ, Z.pow_succ_r by lia. ring.
Qed.

Lemma requested_sizes_In s n size sz :
  In sz (requested_sizes (inject_Z s) n size) ->
  exists i, (i < n)%nat /\ sz = size * s ^ Z.of_nat i.
Proof.
  intros Hin. destruct (In_nth _ _ 0 Hin) as (i & Hi & E).
  rewrite requested_sizes_length in Hi. exists i. split; [exact Hi|].
  rewrite <- E. now apply requested_sizes_integer.
Qed.

Lemma pow_ge_1 s i : 1 <= s -> 1 <= s ^ Z.of_nat i.
Proof.
  intros Hs. induction i as [|i IH]; [simpl; lia|].
  rewrite Nat2Z.inj_succ, Z.pow_succ_r by lia. nia.
Qed.

(** ** Resizing *)

Lemma resize_shape p k t B C :
  0 < p -> 1 <= k -> shape4 t = (B, C, p * k, p * k) ->
  exists t', retina.resize p t = Some t' /\ shape4 t' = (B, C, p, p).
Proof.
  intros Hp Hk Ht. apply shape4_inv in Ht. destruct Ht as (HB & HC & HH & HW).
  unfold retina.resize, torch.avg_pool2d.
  destruct (p =? 0) eqn:E0; [apply Z.eqb_eq in E0; lia|].
  rewrite HW, HH.
  replace (p * k / p) with k by (rewrite Z.mul_comm, Z.div_mul; lia).
  replace (p * k / k) with p by (rewrite Z.div_mul; lia).
  destruct (k <=? 0) eqn:E1; [apply Z.leb_le in E1; lia|].
  destruct (p <=? 0) eqn:E2; [apply Z.leb_le in E2; lia|].
  cbn [orb]. eexists. split; [reflexivity|].
  apply shape4_inv. cbn [dimB dimC dimH dimW]. auto.
Qed.

Lemma resize_all_shape p ps B C :
  0 < p ->
  ps <> [] ->
  shape4 (hd empty4 ps) = (B, C, p, p) ->
  Forall (fun t => exists k, 1 <= k /\ shape4 t = (B, C, p * k, p * k)) ps ->
  exists rs, retina.resize_all p ps = Some rs /\
             length rs = length ps /\
             Forall (fun t => shape4 t = (B, C, p, p)) rs.
Proof.
  intros Hp Hne H0 Hall. destruct ps as [|p0 rest]; [congruence|].
  cbn [hd] in H0. inversion Hall as [|? ? _ Hrest]; subst.
  destruct (omap_total (retina.resize p) (fun t => shape4 t = (B, C, p, p)) rest)
    as (rs & Ers & Hrs & Len).
  { intros t Ht. rewrite Forall_forall in Hrest.
    destruct (Hrest t Ht) as (k & Hk & Hs). now apply (resize_shape p k). }
  unfold retina.resize_all. rewrite Ers. cbn [option_map].
  exists (p0 :: rs). split; [reflexivity|]. split; [simpl; now rewrite Len|].
  constructor; assumption.
Qed.

(** ** [foveate] on the inputs it is designed for *)

Lemma extracted_valid self x l s :
  valid_call self x l s ->
  exists ps,
    omap (extract_from (shape_used self x) x l)
         (requested_sizes (retina.scale self)
            (Z.to_nat (retina.num_patches self)) (retina.patch_size self)) = Some ps /\
    length ps = Z.to_nat (retina.num_patches self) /\
    forall i, (i < Z.to_nat (retina.num_patches self))%nat ->
      shape4 (nth i ps empty4) =
      (dimB x, dimC x, retina.patch_size self * s ^ Z.of_nat i,
       retina.patch_size self * s ^ Z.of_nat i).
Proof.
  intros V. destruct V.
  rewrite shape_used_fits by assumption. rewrite v_scale0.
  set (n := Z.to_nat (retina.num_patches self)).
  set (p := retina.patch_size self) in *.
  assert (Hsize : forall sz, In sz (requested_sizes (inject_Z s) n p) ->
            exists q, extract_from (dimH x, dimW x) x l sz = Some q /\
                      shape4 q = (dimB x, dimC x, sz, sz)).
  { intros sz Hin. destruct (requested_sizes_In _ _ _ _ Hin) as (i & _ & ->).
    pose proof (pow_ge_1 s i v_scale_pos0) as Hpow.
    apply extract_from_square; try assumption; [nia|].
    rewrite Z.even_mul, v_patch_even0. reflexivity. }
  destruct (omap_total _ (fun _ => True) _
              (fun sz Hin => match Hsize sz Hin with
                             | ex_intro _ q (conj E _) => ex_intro _ q (conj E I)
                             end)) as (ps & Eps & _ & Len).
  exists ps. rewrite requested_sizes_length in Len.
  split; [exact Eps|]. split; [exact Len|].
  intros i Hi.
  pose proof (omap_nth _ _ _ i 0 empty4 Eps) as Hnth.
  rewrite requested_sizes_length in Hnth. specialize (Hnth Hi).
  rewrite requested_sizes_integer in Hnth by exact Hi.
  destruct (Hsize (p * s ^ Z.of_nat i)) as (q & Eq & Sq).
  { rewrite <- (requested_sizes_integer s n p i Hi). apply nth_In.
    now rewrite requested_sizes_length. }
  rewrite Eq in Hnth. injection Hnth as E. rewrite <- E. exact Sq.
Qed.

Lemma resized_valid self x l s :
  valid_call self x l s ->
  exists rs,
    resized_from self x l = Some rs /\
    length rs = Z.to_nat (retina.num_patches self) /\
    Forall (fun t => shape4 t =
              (dimB x, dimC x, retina.patch_size self, retina.patch_size self)) rs.
Proof.
  intros V. destruct (extracted_valid self x l s V) as (ps & Eps & Len & Hps).
  destruct V.
  unfold resized_from. rewrite Eps. cbn [obind].
  destruct (resize_all_shape (retina.patch_size self) ps (dimB x) (dimC x))
    as (rs & Ers & Lrs & Hrs).
  - assumption.
  - intros ->. simpl in Len. lia.
  - destruct ps as [|p0 r]; [simpl in Len; lia|]. cbn [hd].
    specialize (Hps 0%nat). cbn [nth] in Hps. rewrite Hps by lia.
    simpl. now rewrite Z.mul_1_r.
  - apply Forall_forall. intros t Ht.
    destruct (In_nth _ _ empty4 Ht) as (i & Hi & <-).
    exists (s ^ Z.of_nat i). split; [now apply pow_ge_1|].
    apply Hps. lia.
  - exists rs. rewrite Lrs. auto.
Qed.

Lemma view_rows_shape t B C H W :
  shape4 t = (B, C, H, W) -> B <> 0 ->
  exists out, torch.view_rows t = Some out /\ shape2 out = (B, C * H * W).
Proof.
  intros Ht HB. apply shape4_inv in Ht. destruct Ht as (EB & EC & EH & EW).
  unfold torch.view_rows. rewrite EB.
  destruct (B =? 0) eqn:E; [apply Z.eqb_eq in E; congruence|].
  eexists. split; [reflexivity|]. unfold shape2. simpl. now rewrite EC, EH, EW.
Qed.

Lemma foveate_valid self x l s :
  valid_call self x l s ->
  exists out,
    foveate_from self x l = Some out /\
    shape2 out =
    (dimB x,
     retina.num_patches self * dimC x * retina.patch_size self * retina.patch_size self).
Proof.
  intros V. destruct (resized_valid self x l s V) as (rs & Ers & Len & Hrs).
  destruct V.
  unfold foveate_from. rewrite Ers. cbn [obind].
  assert (Hne : rs <> []) by (intros ->; simpl in Len; lia).
  destruct (cat1_shape rs _ _ _ _ Hne Hrs) as (c & Ec & Sc).
  rewrite Ec. cbn [obind].
  destruct (view_rows_shape c _ _ _ _ Sc) as (out & Eo & So); [lia|].
  exists out. split; [exact Eo|]. rewrite So, Len. f_equal. f_equal. f_equal. lia.
Qed.

Lemma example_valid : valid_call retina_2_2_2 image_2x4x4 two_locations 2.
Proof.
  constructor; try reflexivity; try (simpl; lia).
  - now left.
  - intros i j Hi Hj. simpl in Hi, Hj.
    assert (Ei : i = 0 \/ i = 1) by lia.
    assert (Ej : j = 0 \/ j = 1) by lia.
    destruct Ei as [-> | ->], Ej as [-> | ->]; simpl; split; discriminate.
Qed.

(** ** The retina: the claims *)

(** C1.  [foveate] does not return the documented shape
    [(batch, num_patches * channels * patch_size * patch_size)] on an image
    that is not square: for one image of 4 rows and 2 columns, one patch of
    side 2 and the location [(1, 1)], the column window starts beyond the
    padded width, the patch is empty and the result has shape [(1, 0)]
    instead of [(1, 4)]. *)
Theorem foveate_shape_fails_off_square :
  let self := retina.init 2 1 2 in
  let x := ramp 1 1 4 2 in
  let l := locations [(1, 1)%Q] in
  option_map shape2 (snd (retina.foveate x l self)) = Some (1, 0) /\
  (1, 0) <> (dimB x,
             retina.num_patches self * dimC x *
             retina.patch_size self * retina.patch_size self).
Proof. split; [vm_compute; reflexivity|discriminate]. Qed.










(** ** The location network *)

Lemma tanh_bounds (x : R) : (-1 <= tanh x <= 1)%R.
Proof.
  unfold tanh, sinh, cosh.
  pose proof (exp_pos x) as Ha. pose proof (exp_pos (- x)) as Hb.
  set (a := exp x) in *. set (b := exp (- x)) in *.
  assert (Hc : (0 < (a + b) / 2)%R) by lra.
  split.
  - apply Rmult_le_reg_r with ((a + b) / 2)%R; [exact Hc|].
    unfold Rdiv at 2. rewrite Rmult_assoc, Rinv_l by lra. lra.
  - apply Rmult_le_reg_r with ((a + b) / 2)%R; [exact Hc|].
    unfold Rdiv at 1. rewrite Rmult_assoc, Rinv_l by lra. lra.
Qed.

Lemma broadcast_dim_same a : torch.broadcast_dim a a = Some a.
Proof. unfold torch.broadcast_dim. now rewrite Z.eqb_refl. Qed.

Lemma bidx_inside n i : 0 <= i < n -> torch.bidx n i = i.
Proof.
  intros Hi. unfold torch.bidx. destruct (n =? 1) eqn:E; [|reflexivity].
  apply Z.eqb_eq in E. lia.
Qed.

Lemma Linear_forward_shape {A} `{Scalar A} (fc : torch.Linear A) x :
  ncols x = torch.in_features fc ->
  exists y, torch.Linear_forward fc x = Some y /\
            shape2 y = (nrows x, torch.out_features fc) /\
            forall i j, at2 y i j =
              s_add (torch.dot (torch.in_features fc) (at2 x i) (torch.weight fc j))
                    (torch.bias fc j).
Proof.
  intros E. unfold torch.Linear_forward. rewrite E, Z.eqb_refl.
  eexists. split; [reflexivity|]. split; reflexivity.
Qed.

Lemma Linear_forward_width {A} `{Scalar A} (fc : torch.Linear A) x :
  ncols x <> torch.in_features fc -> torch.Linear_forward fc x = None.
Proof.
  intros E. unfold torch.Linear_forward.
  destruct (ncols x =? torch.in_features fc) eqn:E'; [|reflexivity].
  apply Z.eqb_eq in E'. contradiction.
Qed.

(** C5.  For a hidden-state batch of the width the layer expects and a
    standard deviation that is not negative, [LocationNet.forward] returns
    [mu = tanh(fc(h_t))] and [l_t = tanh(mu + noise)], of the same shape
    [(batch, output_size)], where the noise of each coordinate is [std]
    times that coordinate's own draw of the generator; every coordinate of
    both tensors lies in [[-1, 1]]. *)
Theorem location_forward_bounded self h_t g :
  ncols h_t = torch.in_features (LocationNet.fc self) ->
  (0 <= LocationNet.std self)%R ->
  exists a mu l_t g',
    torch.Linear_forward (LocationNet.fc self) h_t = Some a /\
    LocationNet.forward self h_t g = (g', Some (mu, l_t)) /\
    shape2 mu = (nrows h_t, torch.out_features (LocationNet.fc self)) /\
    shape2 l_t = shape2 mu /\
    (forall i j, at2 mu i j = tanh (at2 a i j)) /\
    (forall i j, 0 <= i < nrows mu -> 0 <= j < ncols mu ->
       at2 l_t i j =
       tanh (at2 mu i j +
             LocationNet.std self *
             np_random.gauss g
               (np_random.position g + Z.to_nat (i * ncols mu + j)))%R) /\
    (forall i j, (-1 <= at2 mu i j <= 1)%R /\ (-1 <= at2 l_t i j <= 1)%R).
Proof.
  intros Hw Hstd.
  destruct (Linear_forward_shape (LocationNet.fc self) h_t Hw) as (a & Ea & Sa & _).
  unfold LocationNet.forward, bind, lift, ret, np_random.normal, LocationNet.detach.
  rewrite Ea. cbv iota beta.
  destruct (Rlt_dec (LocationNet.std self) 0) as [Hneg|_]; [lra|].
  cbv iota beta. unfold torch.add, torch.map2. cbn [nrows ncols at2].
  rewrite !broadcast_dim_same.
  eexists a, _, _, _. split; [reflexivity|]. split; [reflexivity|].
  unfold shape2 in *. cbn [nrows ncols at2]. injection Sa as Er Ec.
  split; [now rewrite Er, Ec|]. split; [reflexivity|]. split; [reflexivity|].
  split.
  - intros i j Hi Hj. rewrite !bidx_inside by assumption.
    cbn [s_add R_scalar]. f_equal. lra.
  - intros i j. split; apply tanh_bounds.
Qed.

Lemma location_forward_bounded_witness :
  exists a mu l_t g',
    torch.Linear_forward (LocationNet.fc (location_net (1 / 2))) hidden_2x2 = Some a /\
    LocationNet.forward (location_net (1 / 2)) hidden_2x2 unit_draws
      = (g', Some (mu, l_t)) /\
    shape2 mu = (2, 2) /\
    shape2 l_t = shape2 mu /\
    (forall i j, at2 mu i j = tanh (at2 a i j)) /\
    (forall i j, 0 <= i < nrows mu -> 0 <= j < ncols mu ->
       at2 l_t i j =
       tanh (at2 mu i j +
             1 / 2 * np_random.gauss unit_draws
                       (np_random.position unit_draws + Z.to_nat (i * ncols mu + j)))%R) /\
    (forall i j, (-1 <= at2 mu i j <= 1)%R /\ (-1 <= at2 l_t i j <= 1)%R).
Proof.
  apply (location_forward_bounded (location_net (1 / 2)) hidden_2x2 unit_draws).
  - reflexivity.
  - simpl. lra.
Defined.

(** C8.  With [std = 0] the two tensors that [LocationNet.forward] returns
    do not depend on the state of the generator: two calls on the same
    hidden state return the same pair, and they do return one when the
    hidden state has the width the layer expects. *)
Theorem location_forward_deterministic self h_t g1 g2 :
  LocationNet.std self = 0%R ->
  snd (LocationNet.forward self h_t g1) = snd (LocationNet.forward self h_t g2) /\
  (ncols h_t = torch.in_features (LocationNet.fc self) ->
   exists mu l_t, snd (LocationNet.forward self h_t g1) = Some (mu, l_t)).
Proof.
  intros Hstd.
  unfold LocationNet.forward, bind, lift, ret, np_random.normal, LocationNet.detach.
  rewrite Hstd.
  destruct (Rlt_dec 0 0) as [Hneg|_]; [lra|].
  split.
  - destruct (torch.Linear_forward (LocationNet.fc self) h_t) as [a|]; [|reflexivity].
    cbv iota beta. unfold torch.add, torch.map2. cbn [nrows ncols at2].
    rewrite !broadcast_dim_same. cbn [snd]. do 3 f_equal.
    extensionality i. extensionality j. cbn [s_add R_scalar].
    apply (f_equal tanh). cbn [at2]. ring.
  - intros Hw.
    destruct (Linear_forward_shape (LocationNet.fc self) h_t Hw) as (a & Ea & _).
    rewrite Ea. cbv iota beta. unfold torch.add, torch.map2. cbn [nrows ncols at2].
    rewrite !broadcast_dim_same. cbn [snd]. eauto.
Qed.

Lemma location_forward_deterministic_witness :
  snd (LocationNet.forward (location_net 0) hidden_2x2 zero_draws)
  = snd (LocationNet.forward (location_net 0) hidden_2x2 unit_draws) /\
  (ncols hidden_2x2 = torch.in_features (LocationNet.fc (location_net 0)) ->
   exists mu l_t,
     snd (LocationNet.forward (location_net 0) hidden_2x2 zero_draws) = Some (mu, l_t)).
Proof.
  exact (location_forward_deterministic (location_net 0) hidden_2x2
           zero_draws unit_draws eq_refl).
Defined.

(** ** The recurrent core: the initial state *)

Lemma unit_draw_range w :
  (0 <= torch_random.unit_draw w)%Q /\ (torch_random.unit_draw w < 1)%Q.
Proof.
  unfold torch_random.unit_draw.
  assert (Hm : (w mod 2 ^ 24 < 2 ^ 24)%N) by (apply N.mod_lt; discriminate).
  set (m := (w mod 2 ^ 24)%N) in *.
  assert (Hz : 0 <= Z.of_N m < 2 ^ 24).
  { split; [apply N2Z.is_nonneg|]. change (2 ^ 24) with (Z.of_N (2 ^ 24)). lia. }
  assert (Hd : (0 < inject_Z (2 ^ 24))%Q) by reflexivity.
  split.
  - apply Qle_shift_div_l; [exact Hd|]. rewrite Qmult_0_l.
    unfold Qle. simpl. lia.
  - apply Qlt_shift_div_r; [exact Hd|]. rewrite Qmult_1_l.
    unfold Qlt. simpl. lia.
Qed.

(** C6.  For a batch size [N] (and a hidden size) that is not negative,
    [init_state] returns a hidden state of shape [(N, hidden_size)] whose
    entries are all zero and a location tensor of shape [(N, 2)] whose
    entries all lie in [[-1, 1]]; the entry [(i, j)] is [2 u - 1] for the
    draw [u] number [2 i + j] of the generator, so every coordinate has a
    draw of its own, and the generator moves on by [2 N] draws. *)
Theorem init_state_zero_hidden_unit_location self N use_gpu g :
  0 <= N -> 0 <= core_network.hidden_size self ->
  exists h_t l_t,
    core_network.init_state self N use_gpu g =
      (torch_random.mk (torch_random.words g)
         (torch_random.cursor g + Z.to_nat (N * 2)), Some (h_t, l_t)) /\
    shape2 h_t = (N, core_network.hidden_size self) /\
    (forall i j, at2 h_t i j = 0%Q) /\
    shape2 l_t = (N, 2) /\
    (forall i j, (-1 <= at2 l_t i j)%Q /\ (at2 l_t i j <= 1)%Q) /\
    (forall i j,
       at2 l_t i j ==
       2 * torch_random.unit_draw
             (torch_random.words g (torch_random.cursor g + Z.to_nat (i * 2 + j)))
       - 1)%Q.
Proof.
  intros HN Hh.
  unfold core_network.init_state, bind, lift, ret, torch.zeros, torch_random.uniform_.
  destruct ((N <? 0) || (core_network.hidden_size self <? 0)) eqn:E1.
  { apply orb_true_iff in E1. destruct E1 as [E|E]; apply Z.ltb_lt in E; lia. }
  destruct ((N <? 0) || (2 <? 0)) eqn:E2.
  { apply orb_true_iff in E2. destruct E2 as [E|E]; apply Z.ltb_lt in E; lia. }
  eexists _, _. split; [reflexivity|].
  split; [reflexivity|]. split; [reflexivity|]. split; [reflexivity|].
  cbn [at2]. split.
  - intros i j.
    destruct (unit_draw_range
                (torch_random.words g (torch_random.cursor g + Z.to_nat (i * 2 + j))))
      as [H0 H1].
    split; lra.
  - intros i j. ring.
Qed.

Lemma init_state_zero_hidden_unit_location_witness :
  exists h_t l_t,
    core_network.init_state core_2_3 2 false counting_generator =
      (torch_random.mk (torch_random.words counting_generator) 4, Some (h_t, l_t)) /\
    shape2 h_t = (2, 3) /\
    (forall i j, at2 h_t i j = 0%Q) /\
    shape2 l_t = (2, 2) /\
    (forall i j, (-1 <= at2 l_t i j)%Q /\ (at2 l_t i j <= 1)%Q) /\
    (forall i j,
       at2 l_t i j ==
       2 * torch_random.unit_draw
             (torch_random.words counting_generator
                (torch_random.cursor counting_generator + Z.to_nat (i * 2 + j)))
       - 1)%Q.
Proof.
  apply (init_state_zero_hidden_unit_location core_2_3 2 false counting_generator).
  - lia.
  - simpl. lia.
Defined.

(** ** The glimpse network and the recurrent core *)

Lemma glimpse_forward_run x_t l_t self :
  snd (GlimpseNet.forward x_t l_t self) = glimpse_from self x_t l_t.
Proof.
  unfold GlimpseNet.forward, glimpse_from, bind, lift, ret, GlimpseNet.call,
    GlimpseNet.on_retina.
  rewrite foveate_run.
  destruct (foveate_from (GlimpseNet.retina self) x_t l_t) as [glimpse|];
    [|reflexivity].
  cbn [obind GlimpseNet.fc1 GlimpseNet.fc2 GlimpseNet.fc3 GlimpseNet.fc4].
  destruct (torch.Linear_forward (GlimpseNet.fc1 self) glimpse) as [h1|];
    [|reflexivity]. cbn [obind].
  destruct (torch.Linear_forward (GlimpseNet.fc3 self) _) as [what|];
    [|reflexivity]. cbn [obind].
  destruct (torch.Linear_forward (GlimpseNet.fc2 self) l_t) as [h2|];
    [|reflexivity]. cbn [obind].
  destruct (torch.Linear_forward (GlimpseNet.fc4 self) _) as [where_|];
    [|reflexivity]. cbn [obind].
  destruct (torch.add what where_); reflexivity.
Qed.

Lemma init_sized hidden_g hidden_l patch_size num_patches scale num_channel p1 p2 p3 p4 :
  sized (GlimpseNet.init hidden_g hidden_l patch_size num_patches scale num_channel
           p1 p2 p3 p4) hidden_g hidden_l num_channel.
Proof. unfold sized. simpl. repeat split. Qed.

Lemma shape2_inv {A} (t : tensor2 A) r c :
  shape2 t = (r, c) <-> nrows t = r /\ ncols t = c.
Proof.
  unfold shape2. split.
  - intros E. inversion E. auto.
  - intros (-> & ->). reflexivity.
Qed.

Lemma add_same_shape {A} `{Scalar A} (x y : tensor2 A) r c :
  shape2 x = (r, c) -> shape2 y = (r, c) ->
  exists z, torch.add x y = Some z /\ shape2 z = (r, c) /\
            forall i j, 0 <= i < r -> 0 <= j < c ->
                        at2 z i j = s_add (at2 x i j) (at2 y i j).
Proof.
  intros Sx Sy. apply shape2_inv in Sx, Sy. destruct Sx as (Rx & Cx), Sy as (Ry & Cy).
  unfold torch.add. rewrite Rx, Cx, Ry, Cy, !broadcast_dim_same.
  eexists. split; [reflexivity|]. split; [reflexivity|].
  intros i j Hi Hj. cbn [at2]. now rewrite !bidx_inside.
Qed.

(** On a valid call every stage of [GlimpseNet.forward] returns, and the
    result has one row per image. *)
Lemma glimpse_forward_valid self hidden_g hidden_l x l s :
  sized self hidden_g hidden_l (dimC x) ->
  valid_call (GlimpseNet.retina self) x l s ->
  exists glimpse h_what what h_where where_ g,
    snd (retina.foveate x l (GlimpseNet.retina self)) = Some glimpse /\
    torch.Linear_forward (GlimpseNet.fc1 self) glimpse = Some h_what /\
    torch.Linear_forward (GlimpseNet.fc3 self) (torch.relu h_what) = Some what /\
    torch.Linear_forward (GlimpseNet.fc2 self) l = Some h_where /\
    torch.Linear_forward (GlimpseNet.fc4 self) (torch.relu h_where) = Some where_ /\
    shape2 what = (dimB x, hidden_g + hidden_l) /\
    shape2 where_ = (dimB x, hidden_g + hidden_l) /\
    snd (GlimpseNet.forward x l self) = Some g /\
    shape2 g = (dimB x, hidden_g + hidden_l) /\
    forall i j, 0 <= i < dimB x -> 0 <= j < hidden_g + hidden_l ->
                at2 g i j = Qrelu (at2 what i j + at2 where_ i j).
Proof.
  intros (I1 & O1 & I2 & O2 & I3 & O3 & I4 & O4) V.
  destruct (foveate_valid _ x l s V) as (glimpse & Eg & Sg).
  apply shape2_inv in Sg. destruct Sg as (Rg & Cg).
  destruct (Linear_forward_shape (GlimpseNet.fc1 self) glimpse) as (h1 & E1 & S1 & _).
  { rewrite Cg, I1. ring. }
  apply shape2_inv in S1. destruct S1 as (R1 & C1).
  destruct (Linear_forward_shape (GlimpseNet.fc3 self) (torch.relu h1))
    as (what & E3 & S3 & _).
  { cbn [torch.relu torch.map2 ncols]. now rewrite C1, O1, I3. }
  destruct (Linear_forward_shape (GlimpseNet.fc2 self) l) as (h2 & E2 & S2 & _).
  { rewrite I2. now destruct V. }
  apply shape2_inv in S2. destruct S2 as (R2 & C2).
  destruct (Linear_forward_shape (GlimpseNet.fc4 self) (torch.relu h2))
    as (where_ & E4 & S4 & _).
  { cbn [torch.relu torch.map2 ncols]. now rewrite C2, O2, I4. }
  cbn [torch.relu torch.map2 nrows] in S3, S4.
  rewrite R1, Rg, O3 in S3.
  rewrite R2, (v_rows _ _ _ _ V), O4 in S4.
  destruct (add_same_shape what where_ _ _ S3 S4) as (z & Ez & Sz & Hz).
  exists glimpse, h1, what, h2, where_, (torch.relu z).
  rewrite glimpse_forward_run, foveate_run. unfold glimpse_from. cbn [snd].
  rewrite Eg. cbn [obind]. rewrite E1. cbn [obind]. rewrite E3. cbn [obind].
  rewrite E2. cbn [obind]. rewrite E4. cbn [obind]. rewrite Ez. cbn [obind].
  do 5 (split; [reflexivity|]).
  split; [exact S3|]. split; [exact S4|]. split; [reflexivity|].
  split; [exact Sz|].
  intros i j Hi Hj. unfold torch.relu, torch.map2. cbn [at2].
  rewrite Hz by assumption. reflexivity.
Qed.

(** ** What a successful call tells *)

Lemma omap_Forall2 {A B} (f : A -> option B) xs ys :
  omap f xs = Some ys -> Forall2 (fun x y => f x = Some y) xs ys.
Proof.
  revert ys. induction xs as [|x r IH]; simpl; intros ys E.
  - injection E as <-. constructor.
  - destruct (f x) eqn:Ex; [|discriminate].
    destruct (omap f r) eqn:Er; [|discriminate].
    injection E as <-. constructor; [exact Ex|now apply IH].
Qed.

Lemma cut_inv x' coords size i q :
  retina.cut x' coords size i = Some q ->
  0 <= i < nrows coords /\
  q = torch.slice_patch x' i (at2 coords i 1) (at2 coords i 1 + size)
                             (at2 coords i 0) (at2 coords i 0 + size).
Proof.
  unfold retina.cut, retina.from_y, retina.from_x, torch.getitem.
  destruct ((0 <=? i) && (i <? nrows coords)) eqn:E; [|discriminate].
  cbn [obind]. intros Eq. injection Eq as <-.
  apply andb_true_iff in E. destruct E as [E1 E2].
  apply Z.leb_le in E1. apply Z.ltb_lt in E2. split; [lia|reflexivity].
Qed.

Lemma cat0_at_ones ts k :
  Forall (fun t => dimB t = 1) ts -> (k < length ts)%nat ->
  torch.cat0_at ts (Z.of_nat k) = at4 (nth k ts empty4) 0.
Proof.
  revert k. induction ts as [|u us IH]; intros k Hones Hk; [simpl in Hk; lia|].
  inversion Hones as [|? ? Hu Hr]; subst.
  cbn [torch.cat0_at]. rewrite Hu. destruct k as [|k].
  - reflexivity.
  - replace (Z.of_nat (S k) <? 1) with false by (symmetry; apply Z.ltb_ge; lia).
    replace (Z.of_nat (S k) - 1) with (Z.of_nat k) by lia.
    cbn [nth]. apply IH; [exact Hr|simpl in Hk; lia].
Qed.

Lemma cat0_ones_inv patch p :
  torch.cat0 patch = Some p ->
  Forall (fun t => dimB t = 1) patch ->
  patch <> [] /\
  dimB p = Z.of_nat (length patch) /\
  Forall (fun t => dimC t = dimC p /\ dimH t = dimH p /\ dimW t = dimW p) patch /\
  forall k, (k < length patch)%nat ->
            at4 p (Z.of_nat k) = at4 (nth k patch empty4) 0.
Proof.
  intros E Hones. destruct patch as [|t r]; [discriminate|].
  unfold torch.cat0 in E.
  destruct (forallb (torch.same_CHW t) r) eqn:Hsame; [|discriminate].
  injection E as <-.
  split; [discriminate|]. split; [exact (total_ones dimB (t :: r) Hones)|]. split.
  - cbn [dimC dimH dimW]. constructor; [auto|]. apply Forall_forall. intros u Hu.
    rewrite forallb_forall in Hsame. specialize (Hsame u Hu).
    unfold torch.same_CHW in Hsame.
    apply andb_true_iff in Hsame. destruct Hsame as [Hsame E3].
    apply andb_true_iff in Hsame. destruct Hsame as [E1 E2].
    apply Z.eqb_eq in E1, E2, E3. auto.
  - intros k Hk. exact (cat0_at_ones (t :: r) k Hones Hk).
Qed.

Lemma extract_from_inv shape x l size p :
  extract_from shape x l size = Some p ->
  exists coords x',
    retina.pixel_coords l shape = Some coords /\
    torch.ConstantPad2d (retina.padding size) 0 x = Some x' /\
    dimB p = dimB x /\ 1 <= dimB x /\ dimB x <= nrows coords /\
    forall i, 0 <= i < dimB x ->
      let q := torch.slice_patch x' i (at2 coords i 1) (at2 coords i 1 + size)
                                      (at2 coords i 0) (at2 coords i 0 + size) in
      dimC p = dimC q /\ dimH p = dimH q /\ dimW p = dimW q /\
      at4 p i = at4 q 0.
Proof.
  unfold extract_from.
  destruct (retina.pixel_coords l shape) as [coords|]; [|discriminate].
  destruct (torch.ConstantPad2d _ _ _) as [x'|]; [|discriminate].
  cbn [obind].
  destruct (omap _ _) as [patch|] eqn:Epatch; [|discriminate].
  cbn [obind]. intros Ecat.
  pose proof (omap_Forall2 _ _ _ Epatch) as HF.
  pose proof (omap_length _ _ _ Epatch) as Len. rewrite range_length in Len.
  assert (Hones : Forall (fun t => dimB t = 1) patch).
  { apply Forall_forall. intros q Hq.
    destruct (In_nth _ _ empty4 Hq) as (k & Hk & <-).
    pose proof (omap_nth _ _ _ k 0 empty4 Epatch) as Hn.
    rewrite range_length in Hn. specialize (Hn ltac:(lia)).
    apply cut_inv in Hn. destruct Hn as (_ & ->). reflexivity. }
  destruct (cat0_ones_inv _ _ Ecat Hones) as (Hne & HB & Hshape & Hat).
  assert (HBpos : 1 <= dimB x).
  { destruct patch; [congruence|]. simpl in Len. lia. }
  exists coords, x'. split; [reflexivity|]. split; [reflexivity|].
  split; [lia|]. split; [exact HBpos|]. split.
  - pose proof (omap_nth _ _ _ (Z.to_nat (dimB x - 1)) 0 empty4 Epatch) as Hn.
    rewrite range_length in Hn. specialize (Hn ltac:(lia)).
    rewrite range_nth in Hn by lia. apply cut_inv in Hn. lia.
  - intros i Hi.
    set (q := torch.slice_patch x' i (at2 coords i 1) (at2 coords i 1 + size)
                (at2 coords i 0) (at2 coords i 0 + size)).
    pose proof (omap_nth _ _ _ (Z.to_nat i) 0 empty4 Epatch) as Hn.
    rewrite range_length in Hn. specialize (Hn ltac:(lia)).
    rewrite range_nth in Hn by lia. apply cut_inv in Hn. destruct Hn as (_ & Hn).
    fold q in Hn.
    assert (Hin : In q patch).
    { rewrite <- Hn. apply nth_In. lia. }
    rewrite Forall_forall in Hshape. destruct (Hshape q Hin) as (E1 & E2 & E3).
    repeat split; try congruence.
    specialize (Hat (Z.to_nat i) ltac:(lia)).
    rewrite Z2Nat.id in Hat by lia. rewrite Hat, Hn. reflexivity.
Qed.

Lemma pixel_coords_rows l shape coords :
  retina.pixel_coords l shape = Some coords -> nrows coords = nrows l.
Proof.
  unfold retina.pixel_coords.
  destruct (torch.broadcast_dim (ncols l) 2); [|discriminate].
  intros E. injection E as <-. reflexivity.
Qed.

Lemma foveate_from_rows self x l out :
  foveate_from self x l = Some out ->
  nrows out = dimB x /\ 1 <= dimB x /\ dimB x <= nrows l.
Proof.
  unfold foveate_from, resized_from.
  destruct (omap _ _) as [ps|] eqn:Eps; [|discriminate]. cbn [obind].
  destruct (retina.resize_all _ ps) as [rs|] eqn:Ers; [|discriminate]. cbn [obind].
  destruct (torch.cat1 rs) as [c|] eqn:Ec; [|discriminate]. cbn [obind].
  intros Ev.
  assert (Hout : nrows out = dimB c).
  { unfold torch.view_rows in Ev. destruct (dimB c =? 0); [discriminate|].
    injection Ev as <-. reflexivity. }
  destruct rs as [|t r]; [discriminate|].
  assert (Hc : dimB c = dimB t).
  { unfold torch.cat1 in Ec. destruct (forallb _ r); [|discriminate].
    injection Ec as <-. reflexivity. }
  destruct ps as [|p0 rest]; [discriminate|].
  assert (Ht : t = p0).
  { unfold retina.resize_all in Ers. destruct (omap _ rest); [|discriminate].
    cbn [option_map] in Ers. now injection Ers as -> _. }
  subst t.
  apply omap_Forall2 in Eps. inversion Eps as [|sz ? szs ? E0 _]; subst.
  destruct (extract_from_inv _ _ _ _ _ E0) as (coords & x' & Ecoords & _ & HB & H1 & Hle & _).
  apply pixel_coords_rows in Ecoords. lia.
Qed.

(** ** Mismatched batch sizes and widths *)

(** C9, as stated, fails: a batch of one is broadcast.  The recurrent core
    adds one glimpse embedding to three hidden states and returns three
    rows; the glimpse network takes one image with three locations and
    returns three rows. *)
Lemma batch_of_one_is_broadcast :
  (nrows one_glimpse <> nrows three_hidden /\
   option_map shape2 (core_network.forward core_2_3 one_glimpse three_hidden)
   = Some (3, 3)) /\
  (dimB image_1x4x4 <> nrows three_locations /\
   option_map shape2 (snd (GlimpseNet.forward image_1x4x4 three_locations glimpse_net))
   = Some (3, 5)).
Proof.
  split; (split; [discriminate|vm_compute; reflexivity]).
Qed.

Lemma Linear_forward_rows {A} `{Scalar A} (fc : torch.Linear A) x y :
  torch.Linear_forward fc x = Some y -> nrows y = nrows x.
Proof.
  unfold torch.Linear_forward. destruct (ncols x =? torch.in_features fc); [|discriminate].
  intros E. injection E as <-. reflexivity.
Qed.

Lemma add_rows_differ {A} `{Scalar A} (x y : tensor2 A) :
  nrows x <> nrows y -> nrows x <> 1 -> nrows y <> 1 -> torch.add x y = None.
Proof.
  intros Hd Hx Hy. unfold torch.add, torch.broadcast_dim.
  destruct (nrows x =? nrows y) eqn:E1; [apply Z.eqb_eq in E1; contradiction|].
  destruct (nrows x =? 1) eqn:E2; [apply Z.eqb_eq in E2; contradiction|].
  destruct (nrows y =? 1) eqn:E3; [apply Z.eqb_eq in E3; contradiction|].
  reflexivity.
Qed.

(** C9, amended.  The recurrent core fails when the width of the hidden
    state is not its [hidden_size], and when the two batch sizes differ and
    neither of them is 1.  The glimpse network fails when the number of
    locations differs from the number of images, except for one image with
    several locations.  (A batch of one against a larger batch is
    broadcast, as the counterexample shows.) *)
Theorem mismatch_fails_unless_batch_of_one :
  (forall input_size hidden_size p1 p2 g_t h_t_prev,
      ncols h_t_prev <> hidden_size ->
      core_network.forward (core_network.init input_size hidden_size p1 p2)
        g_t h_t_prev = None) /\
  (forall self g_t h_t_prev,
      nrows g_t <> nrows h_t_prev -> nrows g_t <> 1 -> nrows h_t_prev <> 1 ->
      core_network.forward self g_t h_t_prev = None) /\
  (forall self x_t l_t,
      nrows l_t <> dimB x_t -> ~ (dimB x_t = 1 /\ 1 < nrows l_t) ->
      snd (GlimpseNet.forward x_t l_t self) = None).
Proof.
  split; [|split].
  - intros input_size hidden_size p1 p2 g h Hw.
    unfold core_network.forward, core_network.init.
    cbn [core_network.i2h core_network.h2h].
    destruct (torch.Linear_forward _ g); [|reflexivity]. cbn [obind].
    rewrite (Linear_forward_width (torch.new_Linear hidden_size hidden_size p2) h);
      [reflexivity|exact Hw].
  - intros self g h Hd Hg Hh. unfold core_network.forward.
    destruct (torch.Linear_forward _ g) as [h1|] eqn:E1; [|reflexivity]. cbn [obind].
    destruct (torch.Linear_forward _ h) as [h2|] eqn:E2; [|reflexivity]. cbn [obind].
    apply Linear_forward_rows in E1, E2.
    rewrite add_rows_differ; [reflexivity| | |]; congruence.
  - intros self x l Hd Hone. rewrite glimpse_forward_run. unfold glimpse_from.
    destruct (foveate_from _ x l) as [glimpse|] eqn:Eg; [|reflexivity]. cbn [obind].
    apply foveate_from_rows in Eg. destruct Eg as (Rg & H1 & Hle).
    destruct (torch.Linear_forward _ glimpse) as [h1|] eqn:E1; [|reflexivity].
    cbn [obind].
    destruct (torch.Linear_forward _ (torch.relu h1)) as [what|] eqn:E3; [|reflexivity].
    cbn [obind].
    destruct (torch.Linear_forward _ l) as [h2|] eqn:E2; [|reflexivity]. cbn [obind].
    destruct (torch.Linear_forward _ (torch.relu h2)) as [where_|] eqn:E4; [|reflexivity].
    cbn [obind].
    apply Linear_forward_rows in E1, E2, E3, E4.
    cbn [torch.relu torch.map2 nrows] in E3, E4.
    rewrite add_rows_differ; [reflexivity| | |]; lia.
Qed.

Lemma mismatch_fails_unless_batch_of_one_witness :
  core_network.forward core_2_3 two_glimpses two_hidden_wide = None /\
  core_network.forward core_2_3 two_glimpses three_hidden = None /\
  snd (GlimpseNet.forward image_2x4x4 three_locations glimpse_net) = None.
Proof.
  destruct mismatch_fails_unless_batch_of_one as (Hw & Hb & Hg).
  split; [|split].
  - apply (Hw 2 3 unit_params unit_params two_glimpses two_hidden_wide). discriminate.
  - apply (Hb core_2_3 two_glimpses three_hidden); discriminate.
  - apply (Hg glimpse_net image_2x4x4 three_locations); [discriminate|].
    intros (E & _). discriminate.
Defined.

(** ** Batch rows do not mix *)



Lemma pad_inv p v x x' :
  torch.ConstantPad2d p v x = Some x' ->
  0 <= dimH x' /\ 0 <= dimW x' /\
  shape4 x' = (dimB x, dimC x, dimH x + 2 * p, dimW x + 2 * p) /\
  forall b c h w,
    at4 x' b c h w =
    if torch.inside (dimH x) (h - p) && torch.inside (dimW x) (w - p)
    then at4 x b c (h - p) (w - p) else v.
Proof.
  unfold torch.ConstantPad2d.
  destruct ((dimH x + 2 * p <? 0) || (dimW x + 2 * p <? 0)) eqn:E; [discriminate|].
  intros Ex. injection Ex as <-. cbn [dimH dimW at4].
  apply orb_false_iff in E. destruct E as [E1 E2].
  apply Z.ltb_ge in E1, E2. repeat split; auto.
Qed.



















(** ** The glimpse network: the composition *)

Lemma Linear_forward_inv {A} `{Scalar A} (fc : torch.Linear A) x y :
  torch.Linear_forward fc x = Some y ->
  ncols x = torch.in_features fc /\
  shape2 y = (nrows x, torch.out_features fc).
Proof.
  unfold torch.Linear_forward.
  destruct (ncols x =? torch.in_features fc) eqn:E; [|discriminate].
  apply Z.eqb_eq in E. intros Ey. injection Ey as <-. auto.
Qed.

Lemma add_inv {A} `{Scalar A} (x y z : tensor2 A) :
  torch.add x y = Some z ->
  torch.broadcast_dim (nrows x) (nrows y) = Some (nrows z) /\
  torch.broadcast_dim (ncols x) (ncols y) = Some (ncols z).
Proof.
  unfold torch.add.
  destruct (torch.broadcast_dim (nrows x) (nrows y)); [|discriminate].
  destruct (torch.broadcast_dim (ncols x) (ncols y)); [|discriminate].
  intros E. injection E as <-. auto.
Qed.

Lemma broadcast_dim_le a b r :
  torch.broadcast_dim a b = Some r -> 1 <= a <= b -> r = b.
Proof.
  unfold torch.broadcast_dim. intros E Hab.
  destruct (a =? b) eqn:E1; [apply Z.eqb_eq in E1; congruence|].
  destruct (a =? 1) eqn:E2; [congruence|].
  destruct (b =? 1) eqn:E3; [|discriminate].
  apply Z.eqb_eq in E3. apply Z.eqb_neq in E2. lia.
Qed.

(** C7.  [GlimpseNet.forward] computes
    [relu(fc3(relu(fc1(foveate(x, l)))) + fc4(relu(fc2(l))))].  For a network
    whose layers have the sizes its constructor gives them, whenever the
    call returns, every stage has returned, the two summed streams both
    have width [hidden_g + hidden_l] and the result has shape
    [(batch, hidden_g + hidden_l)], with one row per location; and on a
    valid call with [num_channel] channels the call does return, with one
    row per image, and its entries are the [relu] of the entrywise sums of
    the two streams. *)
Theorem glimpse_forward_composition self hidden_g hidden_l x l :
  sized self hidden_g hidden_l (dimC x) ->
  (forall g,
      snd (GlimpseNet.forward x l self) = Some g ->
      exists glimpse h_what what h_where where_ sum,
        snd (retina.foveate x l (GlimpseNet.retina self)) = Some glimpse /\
        torch.Linear_forward (GlimpseNet.fc1 self) glimpse = Some h_what /\
        torch.Linear_forward (GlimpseNet.fc3 self) (torch.relu h_what) = Some what /\
        torch.Linear_forward (GlimpseNet.fc2 self) l = Some h_where /\
        torch.Linear_forward (GlimpseNet.fc4 self) (torch.relu h_where) = Some where_ /\
        ncols what = hidden_g + hidden_l /\
        ncols where_ = hidden_g + hidden_l /\
        torch.add what where_ = Some sum /\
        g = torch.relu sum /\
        shape2 g = (nrows l, hidden_g + hidden_l)) /\
  (forall s,
      valid_call (GlimpseNet.retina self) x l s ->
      exists what where_ g,
        snd (GlimpseNet.forward x l self) = Some g /\
        shape2 what = (dimB x, hidden_g + hidden_l) /\
        shape2 where_ = (dimB x, hidden_g + hidden_l) /\
        shape2 g = (dimB x, hidden_g + hidden_l) /\
        forall i j, 0 <= i < dimB x -> 0 <= j < hidden_g + hidden_l ->
                    at2 g i j = Qrelu (at2 what i j + at2 where_ i j)).
Proof.
  intros Hsized. split.
  - destruct Hsized as (_ & _ & _ & _ & _ & O3 & _ & O4).
    intros g. rewrite glimpse_forward_run, foveate_run. cbn [snd].
    unfold glimpse_from.
    destruct (foveate_from _ x l) as [glimpse|] eqn:Eg; [|discriminate]. cbn [obind].
    destruct (torch.Linear_forward _ glimpse) as [h1|] eqn:E1; [|discriminate].
    cbn [obind].
    destruct (torch.Linear_forward _ (torch.relu h1)) as [what|] eqn:E3; [|discriminate].
    cbn [obind].
    destruct (torch.Linear_forward _ l) as [h2|] eqn:E2; [|discriminate]. cbn [obind].
    destruct (torch.Linear_forward _ (torch.relu h2)) as [where_|] eqn:E4; [|discriminate].
    cbn [obind].
    destruct (torch.add what where_) as [sum|] eqn:Ea; [|discriminate]. cbn [obind].
    intros Eg'. injection Eg' as <-.
    exists glimpse, h1, what, h2, where_, sum.
    split; [reflexivity|]. split; [exact E1|]. split; [exact E3|].
    split; [reflexivity|]. split; [exact E4|].
    apply foveate_from_rows in Eg. destruct Eg as (Rg & HB & Hle).
    destruct (Linear_forward_inv _ _ _ E1) as (_ & S1).
    destruct (Linear_forward_inv _ _ _ E3) as (_ & S3).
    destruct (Linear_forward_inv _ _ _ E2) as (_ & S2).
    destruct (Linear_forward_inv _ _ _ E4) as (_ & S4).
    apply shape2_inv in S1, S2, S3, S4.
    destruct S1 as (R1 & _), S2 as (R2 & _), S3 as (R3 & C3), S4 as (R4 & C4).
    cbn [torch.relu torch.map2 nrows] in R3, R4.
    rewrite O3 in C3. rewrite O4 in C4.
    split; [exact C3|]. split; [exact C4|]. split; [exact Ea|].
    split; [reflexivity|].
    destruct (add_inv _ _ _ Ea) as (Br & Bc).
    rewrite C3, C4, broadcast_dim_same in Bc. injection Bc as Bc.
    apply broadcast_dim_le in Br; [|lia].
    apply shape2_inv. cbn [torch.relu torch.map2 nrows ncols]. split; congruence.
  - intros s V.
    destruct (glimpse_forward_valid self hidden_g hidden_l x l s Hsized V)
      as (glimpse & h1 & what & h2 & where_ & g & _ & _ & _ & _ & _ & S3 & S4 & Eg & Sg & Hg).
    exists what, where_, g. auto.
Qed.

Lemma glimpse_forward_composition_witness :
  exists what where_ g,
    snd (GlimpseNet.forward image_2x4x4 two_locations glimpse_net) = Some g /\
    shape2 what = (2, 3 + 2) /\
    shape2 where_ = (2, 3 + 2) /\
    shape2 g = (2, 3 + 2) /\
    forall i j, 0 <= i < 2 -> 0 <= j < 3 + 2 ->
                at2 g i j = Qrelu (at2 what i j + at2 where_ i j).
Proof.
  exact (proj2 (glimpse_forward_composition glimpse_net 3 2 image_2x4x4 two_locations
                  (init_sized 3 2 2 2 2 1 unit_params unit_params unit_params unit_params))
               2 example_valid).
Defined.

(** ** The shape of a glimpse *)

(** On a valid call [foveate] returns a tensor of the documented shape
    [(batch, num_patches * channels * patch_size * patch_size)], for every
    location of the unit square, the corners included. *)
Lemma foveate_shape_on_valid_calls self x l s :
  valid_call self x l s ->
  exists out,
    snd (retina.foveate x l self) = Some out /\
    shape2 out =
    (dimB x,
     retina.num_patches self * dimC x * retina.patch_size self * retina.patch_size self).
Proof.
  intros V. destruct (foveate_valid self x l s V) as (out & E & S).
  exists out. rewrite foveate_run. auto.
Qed.

(** On a square image too the documented shape is missed when the side of
    a patch is odd and a coordinate is exactly 1: the window ends one pixel
    past the padded image and the patch is clipped to 2 by 2. *)
Lemma foveate_odd_side_at_corner :
  option_map shape2
    (snd (retina.foveate (ramp 1 1 4 4) (locations [(1, 1)%Q]) (retina.init 3 1 2)))
  = Some (1, 4).
Proof. vm_compute. reflexivity. Qed.

(** * Further properties *)

(** ** The action network *)

Lemma Rsum_pos {A} (f : A -> R) xs :
  xs <> [] -> (forall x, 0 < f x)%R -> (0 < torch.Rsum (map f xs))%R.
Proof.
  intros Hne Hf. destruct xs as [|x r]; [congruence|]. clear Hne.
  revert x. induction r as [|y r IH]; intros x.
  - simpl. specialize (Hf x). lra.
  - specialize (IH y). specialize (Hf x).
    change (torch.Rsum (map f (x :: y :: r)))
      with (f x + torch.Rsum (map f (y :: r)))%R. lra.
Qed.

Lemma Rsum_member {A} (f : A -> R) xs x :
  In x xs -> (forall y, 0 < f y)%R -> (f x <= torch.Rsum (map f xs))%R.
Proof.
  intros Hin Hf. induction xs as [|y r IH]; [contradiction|].
  change (torch.Rsum (map f (y :: r))) with (f y + torch.Rsum (map f r))%R.
  destruct Hin as [-> | Hin].
  - destruct r as [|z r]; [simpl; lra|].
    pose proof (Rsum_pos f (z :: r) ltac:(discriminate) Hf). lra.
  - specialize (IH Hin). specialize (Hf y). lra.
Qed.

Lemma Rsum_div {A} (f : A -> R) (d : R) xs :
  torch.Rsum (map (fun x => f x / d)%R xs) = (torch.Rsum (map f xs) / d)%R.
Proof.
  unfold torch.Rsum.
  induction xs as [|x r IH]; simpl; [unfold Rdiv; ring|].
  rewrite IH. unfold Rdiv. ring.
Qed.

Lemma ln_nonpos x : (0 < x)%R -> (x <= 1)%R -> (ln x <= 0)%R.
Proof.
  intros H0 H1. rewrite <- ln_1. destruct H1 as [Hlt | ->]; [|lra].
  left. now apply ln_increasing.
Qed.

Lemma range_nonempty n : 1 <= n -> range n <> [].
Proof.
  intros Hn E. apply (f_equal (@length Z)) in E.
  rewrite range_length in E. simpl in E. lia.
Qed.

(** X1.  For a hidden state of the width the layer expects and at least one
    class, [ActionNet.forward] returns a tensor of shape
    [(batch, output_size)] whose rows are log-probabilities: every entry is
    at most 0 and the exponentials of every row sum to 1.  For another
    width it fails. *)
Theorem action_forward_log_probabilities self h_t :
  1 <= torch.out_features (ActionNet.fc self) ->
  (ncols h_t <> torch.in_features (ActionNet.fc self) ->
   ActionNet.forward self h_t = None) /\
  (ncols h_t = torch.in_features (ActionNet.fc self) ->
   exists a_t,
     ActionNet.forward self h_t = Some a_t /\
     shape2 a_t = (nrows h_t, torch.out_features (ActionNet.fc self)) /\
     (forall i j, 0 <= j < ncols a_t -> (at2 a_t i j <= 0)%R) /\
     (forall i, torch.Rsum (map (fun j => exp (at2 a_t i j)) (range (ncols a_t))) = 1%R)).
Proof.
  intros Hout. split.
  - intros Hw. unfold ActionNet.forward.
    now rewrite (Linear_forward_width (ActionNet.fc self) h_t Hw).
  - intros Hw.
    destruct (Linear_forward_shape (ActionNet.fc self) h_t Hw) as (a & Ea & Sa & _).
    unfold ActionNet.forward. rewrite Ea. cbn [obind].
    eexists. split; [reflexivity|].
    apply shape2_inv in Sa. destruct Sa as (Ra & Ca).
    unfold torch.log_softmax. cbn [shape2 nrows ncols at2].
    split; [now rewrite Ra, Ca|].
    assert (Hne : range (ncols a) <> []) by (apply range_nonempty; lia).
    split.
    + intros i j Hj.
      set (e := fun k => exp (at2 a i k)).
      assert (He : forall k, (0 < e k)%R) by (intros k; apply exp_pos).
      pose proof (Rsum_pos e _ Hne He) as HS.
      assert (Hj' : In j (range (ncols a))) by (now apply range_In).
      pose proof (Rsum_member e _ j Hj' He) as Hle.
      fold (e j). apply ln_nonpos.
      * apply Rdiv_lt_0_compat; [apply He|exact HS].
      * apply Rmult_le_reg_r with (torch.Rsum (map e (range (ncols a)))); [exact HS|].
        unfold Rdiv. rewrite Rmult_assoc, Rinv_l by lra. lra.
    + intros i.
      set (e := fun k => exp (at2 a i k)).
      assert (He : forall k, (0 < e k)%R) by (intros k; apply exp_pos).
      pose proof (Rsum_pos e _ Hne He) as HS.
      set (S := torch.Rsum (map e (range (ncols a)))) in *.
      rewrite (map_ext (fun j => exp (ln (e j / S))) (fun j => (e j / S)%R)).
      * rewrite Rsum_div. fold S. unfold Rdiv. apply Rinv_r. lra.
      * intros j. apply exp_ln. apply Rdiv_lt_0_compat; [apply He|exact HS].
Qed.

(** ** The baseline network and the recurrent step *)

Lemma Qrelu_nonneg x : (0 <= Qrelu x)%Q.
Proof.
  unfold Qrelu. destruct (Qle_bool x 0) eqn:E; [apply Qle_refl|].
  apply Qlt_le_weak, Qnot_le_lt. intros H. apply Qle_bool_iff in H. congruence.
Qed.

Lemma Qrelu_comp x y : (x == y)%Q -> (Qrelu x == Qrelu y)%Q.
Proof.
  intros E. unfold Qrelu.
  destruct (Qle_bool x 0) eqn:Ex, (Qle_bool y 0) eqn:Ey; try reflexivity; try exact E.
  - apply Qle_bool_iff in Ex. rewrite E in Ex. apply Qle_bool_iff in Ex. congruence.
  - apply Qle_bool_iff in Ey. rewrite <- E in Ey. apply Qle_bool_iff in Ey. congruence.
Qed.

(** X2.  [BaselineNet.forward] fails for a hidden state whose width is not
    the layer's input size; otherwise it returns a tensor of shape
    [(batch, output_size)] none of whose entries is negative. *)
Theorem baseline_forward_nonnegative self h_t :
  (ncols h_t <> torch.in_features (BaselineNet.fc self) ->
   BaselineNet.forward self h_t = None) /\
  (ncols h_t = torch.in_features (BaselineNet.fc self) ->
   exists b_t,
     BaselineNet.forward self h_t = Some b_t /\
     shape2 b_t = (nrows h_t, torch.out_features (BaselineNet.fc self)) /\
     forall i j, (0 <= at2 b_t i j)%Q).
Proof.
  split.
  - intros Hw. unfold BaselineNet.forward.
    now rewrite (Linear_forward_width (BaselineNet.fc self) h_t Hw).
  - intros Hw.
    destruct (Linear_forward_shape (BaselineNet.fc self) h_t Hw) as (a & Ea & Sa & _).
    unfold BaselineNet.forward. rewrite Ea. cbn [obind].
    eexists. split; [reflexivity|]. split; [exact Sa|].
    intros i j. apply Qrelu_nonneg.
Qed.

Lemma core_step input_size hidden_size p1 p2 B g h :
  shape2 g = (B, input_size) -> shape2 h = (B, hidden_size) ->
  let self := core_network.init input_size hidden_size p1 p2 in
  exists h1 h2 z,
    torch.Linear_forward (core_network.i2h self) g = Some h1 /\
    torch.Linear_forward (core_network.h2h self) h = Some h2 /\
    core_network.forward self g h = Some (torch.relu z) /\
    shape2 z = (B, hidden_size) /\
    (forall i j, at2 h1 i j =
       (torch.dot input_size (at2 g i) (torch.p_weight p1 j) + torch.p_bias p1 j)%Q) /\
    (forall i j, at2 h2 i j =
       (torch.dot hidden_size (at2 h i) (torch.p_weight p2 j) + torch.p_bias p2 j)%Q) /\
    forall i j, 0 <= i < B -> 0 <= j < hidden_size ->
                at2 z i j = (at2 h1 i j + at2 h2 i j)%Q.
Proof.
  intros Hg Hh self. apply shape2_inv in Hg, Hh.
  destruct Hg as (Rg & Cg), Hh as (Rh & Ch).
  destruct (Linear_forward_shape (core_network.i2h self) g) as (h1 & E1 & S1 & A1);
    [exact Cg|].
  destruct (Linear_forward_shape (core_network.h2h self) h) as (h2 & E2 & S2 & A2);
    [exact Ch|].
  cbn [self core_network.init core_network.i2h core_network.h2h
       torch.new_Linear torch.out_features] in S1, S2.
  rewrite Rg in S1. rewrite Rh in S2.
  destruct (add_same_shape h1 h2 _ _ S1 S2) as (z & Ez & Sz & Hz).
  exists h1, h2, z. unfold core_network.forward. rewrite E1. cbn [obind].
  rewrite E2. cbn [obind]. rewrite Ez. cbn [obind].
  split; [reflexivity|]. split; [reflexivity|]. split; [reflexivity|].
  split; [exact Sz|]. split; [exact A1|]. split; [exact A2|exact Hz].
Qed.

(** X3.  The recurrent step keeps the shape of the hidden state.  For a
    core built by its constructor, a glimpse of shape [(B, input_size)] and
    a hidden state of shape [(B, hidden_size)], [forward] returns a hidden
    state of shape [(B, hidden_size)] with no negative entry, whose entries
    are [relu(i2h(g_t) + h2h(h_t_prev))], and the step can be taken again
    from the new state with any next glimpse of that shape. *)
Theorem core_forward_keeps_shape input_size hidden_size p1 p2 B g_t h_t_prev :
  shape2 g_t = (B, input_size) ->
  shape2 h_t_prev = (B, hidden_size) ->
  let self := core_network.init input_size hidden_size p1 p2 in
  exists h1 h2 h_t,
    torch.Linear_forward (core_network.i2h self) g_t = Some h1 /\
    torch.Linear_forward (core_network.h2h self) h_t_prev = Some h2 /\
    core_network.forward self g_t h_t_prev = Some h_t /\
    shape2 h_t = (B, hidden_size) /\
    (forall i j, (0 <= at2 h_t i j)%Q) /\
    (forall i j, 0 <= i < B -> 0 <= j < hidden_size ->
                 at2 h_t i j = Qrelu (at2 h1 i j + at2 h2 i j)) /\
    (forall g_next, shape2 g_next = (B, input_size) ->
       exists h_next, core_network.forward self g_next h_t = Some h_next /\
                      shape2 h_next = (B, hidden_size)).
Proof.
  intros Sg Sh self.
  destruct (core_step input_size hidden_size p1 p2 B g_t h_t_prev Sg Sh)
    as (h1 & h2 & z & E1 & E2 & Ef & Sz & _ & _ & Hz).
  exists h1, h2, (torch.relu z).
  split; [exact E1|]. split; [exact E2|]. split; [exact Ef|].
  split; [exact Sz|]. split; [intros i j; apply Qrelu_nonneg|]. split.
  - intros i j Hi Hj. cbn [torch.relu torch.map2 at2]. now rewrite Hz.
  - intros g_next Sn.
    destruct (core_step input_size hidden_size p1 p2 B g_next (torch.relu z) Sn Sz)
      as (_ & _ & z' & _ & _ & Ef' & Sz' & _).
    exists (torch.relu z'). auto.
Qed.

Lemma dot_zero_l n (w : Z -> Q) : (torch.dot n (fun _ => 0%Q) w == 0)%Q.
Proof.
  unfold torch.dot. induction (range n) as [|k r IH]; [reflexivity|].
  cbn [fold_right s_add s_mul s_zero Q_scalar] in *. rewrite IH. ring.
Qed.

(** X4.  The first recurrent step.  The hidden state that [init_state]
    returns for a batch of [N] is accepted by [forward] together with any
    glimpse of shape [(N, input_size)], and since it is zero the new hidden
    state is [relu(i2h(g_t) + b)] where [b] is the bias of [h2h]: the
    weights of [h2h] play no part in the first step. *)
Theorem first_step_from_init_state input_size hidden_size p1 p2 N use_gpu gen g_t :
  0 <= N -> 0 <= hidden_size ->
  shape2 g_t = (N, input_size) ->
  let self := core_network.init input_size hidden_size p1 p2 in
  exists h_0 l_0 h_1,
    snd (core_network.init_state self N use_gpu gen) = Some (h_0, l_0) /\
    core_network.forward self g_t h_0 = Some h_1 /\
    shape2 h_1 = (N, hidden_size) /\
    forall i j, 0 <= i < N -> 0 <= j < hidden_size ->
      (at2 h_1 i j ==
       Qrelu (torch.dot input_size (at2 g_t i) (torch.p_weight p1 j)
              + torch.p_bias p1 j + torch.p_bias p2 j))%Q.
Proof.
  intros HN Hh Sg self.
  unfold core_network.init_state, bind, lift, ret, torch.zeros, torch_random.uniform_.
  cbn [self core_network.init core_network.hidden_size].
  destruct ((N <? 0) || (hidden_size <? 0)) eqn:E1.
  { apply orb_true_iff in E1. destruct E1 as [E|E]; apply Z.ltb_lt in E; lia. }
  destruct ((N <? 0) || (2 <? 0)) eqn:E2.
  { apply orb_true_iff in E2. destruct E2 as [E|E]; apply Z.ltb_lt in E; lia. }
  cbn [snd].
  set (h_0 := T2 N hidden_size (fun _ _ : Z => 0%Q)).
  destruct (core_step input_size hidden_size p1 p2 N g_t h_0 Sg eq_refl)
    as (h1 & h2 & z & _ & _ & Ef & Sz & A1 & A2 & Hz).
  eexists h_0, _, (torch.relu z).
  split; [reflexivity|]. split; [exact Ef|]. split; [exact Sz|].
  intros i j Hi Hj. cbn [torch.relu torch.map2 at2 s_relu Q_scalar].
  apply Qrelu_comp. rewrite Hz, A1, A2 by assumption.
  cbn [h_0 at2]. rewrite dot_zero_l. ring.
Qed.

(** ** When [foveate] raises, and what it leaves behind *)

Lemma pixel_coords_cols l shape coords :
  retina.pixel_coords l shape = Some coords -> ncols l = 1 \/ ncols l = 2.
Proof.
  unfold retina.pixel_coords, torch.broadcast_dim.
  destruct (ncols l =? 2) eqn:E2; [apply Z.eqb_eq in E2; auto|].
  destruct (ncols l =? 1) eqn:E1; [apply Z.eqb_eq in E1; auto|discriminate].
Qed.

(** X5.  [foveate] returns only when there is at least one patch to
    extract, at least one image, at least as many locations as images, and
    locations of one or two columns; with two patches or more the base
    side must not be zero.  The result then has one row per image.  So an
    empty batch, [num_patches <= 0] and too few locations all make the
    call raise. *)
Theorem foveate_returns_only_if self x l out :
  snd (retina.foveate x l self) = Some out ->
  1 <= retina.num_patches self /\
  1 <= dimB x <= nrows l /\
  (ncols l = 1 \/ ncols l = 2) /\
  (2 <= retina.num_patches self -> retina.patch_size self <> 0) /\
  nrows out = dimB x.
Proof.
  rewrite foveate_run. cbn [snd]. intros E.
  destruct (foveate_from_rows _ _ _ _ E) as (Rout & HB & Hle).
  unfold foveate_from, resized_from in E.
  destruct (omap _ _) as [ps|] eqn:Eps; [|discriminate]. cbn [obind] in E.
  destruct (retina.resize_all _ ps) as [rs|] eqn:Ers; [|discriminate]. cbn [obind] in E.
  destruct (torch.cat1 rs) as [c|] eqn:Ec; [|discriminate].
  pose proof (omap_length _ _ _ Eps) as Len. rewrite requested_sizes_length in Len.
  destruct rs as [|t r]; [discriminate|].
  destruct ps as [|p0 rest]; [discriminate|].
  apply omap_Forall2 in Eps.
  assert (Hn : 1 <= retina.num_patches self) by (simpl in Len; lia).
  split; [exact Hn|]. split; [lia|]. split.
  - inversion Eps as [|sz ? szs ? E0 _]; subst.
    destruct (extract_from_inv _ _ _ _ _ E0) as (coords & _ & Ecoords & _).
    now apply pixel_coords_cols in Ecoords.
  - split; [|exact Rout]. intros H2 Hp.
    destruct rest as [|p1 rest]; [simpl in Len; lia|].
    unfold retina.resize_all in Ers. cbn [omap] in Ers.
    unfold retina.resize in Ers at 1. rewrite Hp in Ers. discriminate.
Qed.

Lemma foveate_returns_only_if_witness :
  exists out,
    snd (retina.foveate image_2x4x4 two_locations retina_2_2_2) = Some out /\
    (1 <= retina.num_patches retina_2_2_2 /\
     1 <= dimB image_2x4x4 <= nrows two_locations /\
     (ncols two_locations = 1 \/ ncols two_locations = 2) /\
     (2 <= retina.num_patches retina_2_2_2 -> retina.patch_size retina_2_2_2 <> 0) /\
     nrows out = dimB image_2x4x4).
Proof.
  destruct (snd (retina.foveate image_2x4x4 two_locations retina_2_2_2))
    as [out|] eqn:E.
  - exists out. split; [reflexivity|].
    exact (foveate_returns_only_if retina_2_2_2 image_2x4x4 two_locations out E).
  - exfalso. vm_compute in E. discriminate.
Defined.

(** X6.  The image shape is cached once and never replaced.  A call of
    [foveate], whether it returns or raises, leaves [patch_size],
    [num_patches] and [scale] as they were; a cached shape stays, whatever
    the size of the new image; with no cached shape and at least one patch
    the shape of the image is cached; and with no patch to extract the
    retina is left untouched. *)
Theorem foveate_caches_first_shape self x l :
  let self' := fst (retina.foveate x l self) in
  retina.patch_size self' = retina.patch_size self /\
  retina.num_patches self' = retina.num_patches self /\
  retina.scale self' = retina.scale self /\
  (forall shape, retina.imgShape self = Some shape ->
                 retina.imgShape self' = Some shape) /\
  (retina.imgShape self = None -> 1 <= retina.num_patches self ->
   retina.imgShape self' = Some (dimH x, dimW x)) /\
  (retina.num_patches self <= 0 -> self' = self).
Proof.
  cbv zeta. rewrite foveate_run. cbn [fst].
  destruct (state_after_config (Z.to_nat (retina.num_patches self)) self x)
    as (E1 & E2 & E3).
  split; [exact E1|]. split; [exact E2|]. split; [exact E3|].
  destruct (Z.to_nat (retina.num_patches self)) as [|n] eqn:En; cbn [state_after].
  - split; [auto|]. split; [intros; lia|reflexivity].
  - pose proof (cached_shape_used (dimH x) (dimW x) self x eq_refl eq_refl) as Hc.
    unfold shape_used in Hc. split; [|split].
    + intros shape Es. now rewrite Es in Hc.
    + intros Es _. now rewrite Es in Hc.
    + intros Hn. lia.
Qed.

Lemma glimpse_forward_state x l self :
  fst (GlimpseNet.forward x l self) =
  GlimpseNet.mk (fst (retina.foveate x l (GlimpseNet.retina self)))
    (GlimpseNet.fc1 self) (GlimpseNet.fc2 self) (GlimpseNet.fc3 self)
    (GlimpseNet.fc4 self).
Proof.
  unfold GlimpseNet.forward, bind, lift, ret, GlimpseNet.call, GlimpseNet.on_retina.
  destruct (retina.foveate x l (GlimpseNet.retina self)) as (r, [glimpse|]);
    [|reflexivity].
  cbn [fst GlimpseNet.fc1 GlimpseNet.fc2 GlimpseNet.fc3 GlimpseNet.fc4].
  destruct (torch.Linear_forward (GlimpseNet.fc1 self) glimpse); [|reflexivity].
  destruct (torch.Linear_forward (GlimpseNet.fc3 self) _); [|reflexivity].
  destruct (torch.Linear_forward (GlimpseNet.fc2 self) l); [|reflexivity].
  destruct (torch.Linear_forward (GlimpseNet.fc4 self) _); [|reflexivity].
  destruct (torch.add _ _); reflexivity.
Qed.

Lemma foveate_from_after self x l x2 l2 :
  dimH x2 = dimH x -> dimW x2 = dimW x ->
  foveate_from (fst (retina.foveate x l self)) x2 l2 = foveate_from self x2 l2.
Proof.
  intros EH EW. rewrite foveate_run. cbn [fst].
  destruct (state_after_config (Z.to_nat (retina.num_patches self)) self x)
    as (E1 & E2 & E3).
  unfold foveate_from, resized_from. rewrite E1, E2, E3.
  replace (shape_used (state_after (Z.to_nat (retina.num_patches self)) self x) x2)
    with (shape_used self x2); [reflexivity|].
  destruct (Z.to_nat (retina.num_patches self)); cbn [state_after]; [reflexivity|].
  unfold shape_used at 2.
  rewrite (cached_shape_used (dimH x) (dimW x) self x eq_refl eq_refl).
  unfold shape_used. now rewrite EH, EW.
Qed.

(** X7.  Earlier calls do not change later results as long as the images
    keep their height and width: after a call on [x] (which may have cached
    the image shape, and may have raised), [foveate] and
    [GlimpseNet.forward] return on an image [x2] of the same height and
    width exactly what they would have returned without the earlier call.
    In particular a call repeated on the same inputs returns the same
    result. *)
Theorem earlier_calls_leave_results self net x l x2 l2 :
  dimH x2 = dimH x -> dimW x2 = dimW x ->
  snd (retina.foveate x2 l2 (fst (retina.foveate x l self)))
  = snd (retina.foveate x2 l2 self) /\
  snd (GlimpseNet.forward x2 l2 (fst (GlimpseNet.forward x l net)))
  = snd (GlimpseNet.forward x2 l2 net).
Proof.
  intros EH EW. split.
  - rewrite (foveate_run x2 l2), (foveate_run x2 l2 self). cbn [snd].
    now apply foveate_from_after.
  - rewrite !glimpse_forward_run, glimpse_forward_state. unfold glimpse_from.
    cbn [GlimpseNet.retina GlimpseNet.fc1 GlimpseNet.fc2 GlimpseNet.fc3 GlimpseNet.fc4].
    now rewrite foveate_from_after.
Qed.

Lemma earlier_calls_leave_results_witness :
  snd (retina.foveate image_2x4x4_other two_locations_other
         (fst (retina.foveate image_2x4x4 two_locations retina_2_2_2)))
  = snd (retina.foveate image_2x4x4_other two_locations_other retina_2_2_2) /\
  snd (GlimpseNet.forward image_2x4x4_other two_locations_other
         (fst (GlimpseNet.forward image_2x4x4 two_locations glimpse_net)))
  = snd (GlimpseNet.forward image_2x4x4_other two_locations_other glimpse_net).
Proof.
  exact (earlier_calls_leave_results retina_2_2_2 glimpse_net image_2x4x4 two_locations
           image_2x4x4_other two_locations_other eq_refl eq_refl).
Defined.

(** ** What a glimpse contains *)










(** ** Locations outside the unit square *)

Lemma slice_length_cases n c size :
  0 <= size -> size <= n ->
  let len := snd (torch.slice_bounds n c (c + size)) - fst (torch.slice_bounds n c (c + size)) in
  (n - size < c -> 0 < size -> len < size) /\
  (- size <= c < 0 -> len = 0) /\
  (- n <= c < - size -> len = size).
Proof.
  intros Hs Hn. unfold torch.slice_bounds, torch.slice_index. cbn [fst snd].
  destruct (c <? 0) eqn:E1; [apply Z.ltb_lt in E1|apply Z.ltb_ge in E1];
    (destruct (c + size <? 0) eqn:E2; [apply Z.ltb_lt in E2|apply Z.ltb_ge in E2]);
    repeat split; intros; lia.
Qed.

(** X17.  Locations outside the unit square are not rejected.  On a square
    image of side [S] and for an even side [size], when [extract_patch]
    returns, the height of the patch is decided by the pixel row of the
    location and its width by the pixel column: a coordinate beyond [S]
    gives fewer than [size] rows or columns (the window is cut at the end
    of the padded image); a negative coordinate down to [- size] gives
    none; and a coordinate below [- size] gives all [size] of them, taken
    from the far end of the padded image, because a negative bound of a
    slice counts from the end. *)
Theorem extract_patch_outside_unit_square self x l size p i :
  cache_fits self x -> dimH x = dimW x -> 0 <= dimH x ->
  ncols l = 2 -> 0 < size -> Z.even size = true ->
  0 <= i < dimB x ->
  snd (retina.extract_patch x l size self) = Some p ->
  forall c d,
    (c = centre_row x l i /\ d = dimH p) \/ (c = centre_col x l i /\ d = dimW p) ->
    (dimH x < c -> d < size) /\
    (- size <= c < 0 -> d = 0) /\
    (- (dimH x + size) <= c < - size -> d = size).
Proof.
  intros Hfit Hsq HH Hc Hs He Hi Ep c d Hcd.
  rewrite extract_patch_run, shape_used_fits in Ep by assumption. cbn [snd] in Ep.
  destruct (extract_from_inv _ _ _ _ _ Ep) as (coords & x' & Ec & Ex & _ & _ & _ & Hrow).
  rewrite pixel_coords_two in Ec by assumption. injection Ec as <-.
  destruct (pad_inv _ _ _ _ Ex) as (_ & _ & Sx & _).
  apply shape4_inv in Sx. destruct Sx as (_ & _ & XH & XW).
  destruct (Hrow i Hi) as (_ & EH & EW & _). clear Hrow.
  unfold torch.slice_patch in EH, EW. cbn [dimH dimW at2 fst snd Z.eqb] in EH, EW.
  pose proof (even_half size He) as Hhalf. unfold retina.padding in XH, XW.
  rewrite XH in EH. rewrite XW in EW. rewrite Hhalf in EH, EW.
  fold (centre_row x l i) in EH. fold (centre_col x l i) in EW.
  destruct Hcd as [(-> & ->) | (-> & ->)].
  - rewrite EH.
    destruct (slice_length_cases (dimH x + size) (centre_row x l i) size) as (A & B & C);
      [lia|lia|].
    repeat split; intros; [apply A|apply B|apply C]; lia.
  - rewrite EW. rewrite <- Hsq.
    destruct (slice_length_cases (dimH x + size) (centre_col x l i) size) as (A & B & C);
      [lia|lia|].
    repeat split; intros; [apply A|apply B|apply C]; lia.
Qed.

Lemma extract_patch_outside_unit_square_witness :
  exists p,
    snd (retina.extract_patch image_1x4x4 (locations [(2, -3)%Q]) 2 retina_2_2_2)
    = Some p /\
    forall c d,
      (c = centre_row image_1x4x4 (locations [(2, -3)%Q]) 0 /\ d = dimH p) \/
      (c = centre_col image_1x4x4 (locations [(2, -3)%Q]) 0 /\ d = dimW p) ->
      (dimH image_1x4x4 < c -> d < 2) /\
      (- 2 <= c < 0 -> d = 0) /\
      (- (dimH image_1x4x4 + 2) <= c < - 2 -> d = 2).
Proof.
  destruct (snd (retina.extract_patch image_1x4x4 (locations [(2, -3)%Q]) 2
                   retina_2_2_2)) as [p|] eqn:E.
  - exists p. split; [reflexivity|].
    apply (extract_patch_outside_unit_square retina_2_2_2 image_1x4x4
             (locations [(2, -3)%Q]) 2 p 0); try reflexivity; try (simpl; lia).
    + now left.
    + exact E.
  - exfalso. vm_compute in E. discriminate.
Defined.

(** A location of [(2, -3)] on an image of 4 by 4 pixels: the pixel column
    6 is beyond the image and the patch has no column; the pixel row -4 is
    below [- size] and both rows are taken from the end of the padded
    image. *)
Example patch_outside_unit_square :
  (centre_row image_1x4x4 (locations [(2, -3)%Q]) 0,
   centre_col image_1x4x4 (locations [(2, -3)%Q]) 0) = (-4, 6) /\
  option_map shape4
    (snd (retina.extract_patch image_1x4x4 (locations [(2, -3)%Q]) 2 retina_2_2_2))
  = Some (1, 1, 2, 0).
Proof. split; vm_compute; reflexivity. Qed.

(** ** The draws of the location network *)

(** X10.  [LocationNet.forward] draws its noise only after the layer has
    accepted the hidden state: a call that fails on the width leaves the
    generator as it was.  A call that returns moves the generator on by
    one draw per coordinate, [batch * output_size] in all, and every draw
    it used lies before every draw of a later call. *)
Theorem location_forward_draws self h_t g :
  (ncols h_t <> torch.in_features (LocationNet.fc self) ->
   LocationNet.forward self h_t g = (g, None)) /\
  (ncols h_t = torch.in_features (LocationNet.fc self) ->
   (0 <= LocationNet.std self)%R ->
   let g' := fst (LocationNet.forward self h_t g) in
   let n_out := torch.out_features (LocationNet.fc self) in
   np_random.gauss g' = np_random.gauss g /\
   np_random.position g' = (np_random.position g + Z.to_nat (nrows h_t * n_out))%nat /\
   forall i j k, 0 <= i < nrows h_t -> 0 <= j < n_out ->
     (np_random.position g + Z.to_nat (i * n_out + j) < np_random.position g' + k)%nat).
Proof.
  split.
  - intros Hw. unfold LocationNet.forward, bind, lift.
    now rewrite (Linear_forward_width (LocationNet.fc self) h_t Hw).
  - intros Hw Hstd.
    destruct (Linear_forward_shape (LocationNet.fc self) h_t Hw) as (a & Ea & Sa & _).
    apply shape2_inv in Sa. destruct Sa as (Ra & Ca).
    unfold LocationNet.forward, bind, lift, ret, np_random.normal, LocationNet.detach.
    rewrite Ea. cbv iota beta.
    destruct (Rlt_dec (LocationNet.std self) 0) as [Hneg|_]; [lra|].
    cbv iota beta. unfold torch.add, torch.map2. cbn [nrows ncols at2].
    rewrite !broadcast_dim_same. cbv zeta. cbn [fst np_random.gauss np_random.position].
    rewrite Ra, Ca. split; [reflexivity|]. split; [reflexivity|].
    intros i j k Hi Hj. nia.
Qed.

(** ** Dictionaries *)

Lemma keys_setitem {V} k (v : V) d :
  keys (setitem k v d) = if in_dec String.string_dec k (keys d) then keys d
                         else keys d ++ [k].
Proof.
  unfold keys. induction d as [|(k', v') r IH]; [reflexivity|].
  cbn [setitem map fst]. destruct (String.eqb_spec k' k) as [E|E].
  - subst. cbn [map fst].
    destruct (in_dec String.string_dec k (k :: map fst r)) as [_|N]; [reflexivity|].
    exfalso. apply N. now left.
  - cbn [map fst]. rewrite IH.
    destruct (in_dec String.string_dec k (map fst r)) as [I|N];
      destruct (in_dec String.string_dec k (k' :: map fst r)) as [I'|N'];
      try reflexivity.
    + exfalso. apply N'. now right.
    + exfalso. destruct I' as [E'|I']; [congruence|contradiction].
Qed.

Lemma keys_fold_setitem {A V} (key : A -> String.string) (val : A -> V) xs d :
  NoDup (keys d) ->
  let d' := fold_left (fun d a => setitem (key a) (val a) d) xs d in
  NoDup (keys d') /\
  forall k, In k (keys d') <-> In k (keys d) \/ In k (map key xs).
Proof.
  revert d. induction xs as [|a r IH]; intros d Hd; cbn [fold_left map].
  - split; [exact Hd|]. intros k. simpl. tauto.
  - assert (Hd' : NoDup (keys (setitem (key a) (val a) d)) /\
                  forall k, In k (keys (setitem (key a) (val a) d)) <->
                            In k (keys d) \/ k = key a).
    { rewrite keys_setitem.
      destruct (in_dec String.string_dec (key a) (keys d)) as [I|N].
      - split; [exact Hd|]. intros k. split; [auto|]. intros [H| ->]; assumption.
      - split.
        + apply NoDup_app; [exact Hd|repeat constructor; simpl; tauto|].
          intros x Hx [<-|[]]. contradiction.
        + intros k. rewrite in_app_iff. simpl. split; intros [H|H]; auto.
          destruct H as [<-|[]]. now right. }
    destruct Hd' as (Hnd & Hin).
    destruct (IH _ Hnd) as (Hnd' & Hin'). split; [exact Hnd'|].
    intros k. rewrite Hin', Hin. simpl. split; intros H; intuition congruence.
Qed.

Lemma keys_comprehension {A V} (key : A -> String.string) (val : A -> V) xs :
  NoDup (keys (comprehension key val xs)) /\
  forall k, In k (keys (comprehension key val xs)) <-> In k (map key xs).
Proof.
  destruct (keys_fold_setitem key val xs [] (NoDup_nil _)) as (Hnd & Hin).
  split; [exact Hnd|]. intros k. rewrite Hin. simpl. tauto.
Qed.

(** ** The trainer: construction *)

Lemma has_loss_cons names : Trainer.has_loss ("loss"%string :: names) = true.
Proof. reflexivity. Qed.

Lemma insert_loss_at r hp r' :
  Trainer.insert_loss r hp r' =
  if Nat.eqb r' r
  then (if Trainer.has_loss (hp r) then hp r else "loss"%string :: hp r)
  else hp r'.
Proof.
  unfold Trainer.insert_loss, Trainer.store.
  destruct (Trainer.has_loss (hp r)) eqn:E.
  - destruct (Nat.eqb_spec r' r) as [-> |_]; reflexivity.
  - reflexivity.
Qed.

Lemma has_loss_after r hp :
  Trainer.has_loss (Trainer.insert_loss r hp r) = true.
Proof.
  rewrite insert_loss_at, Nat.eqb_refl.
  destruct (Trainer.has_loss (hp r)) eqn:E; [exact E|reflexivity].
Qed.

(** X11.  The constructor of [Trainer] changes the caller's lists in place:
    each of the two lists that does not contain ['loss'] gets it as its
    first element and is otherwise unchanged, a list that contains it is
    left as it is, and no other list is touched.  This holds also when the
    same list is passed for [watch] and [val_watch] (it then gets ['loss']
    once).  Afterwards both lists contain ['loss'], [stop_training] is
    false, and constructing again from the same lists changes nothing. *)
Theorem trainer_init_inserts_loss watch val_watch hp :
  let self := fst (Trainer.init watch val_watch hp) in
  let hp' := snd (Trainer.init watch val_watch hp) in
  Trainer.stop_training self = false /\
  Trainer.watch self = watch /\ Trainer.val_watch self = val_watch /\
  (forall r, r = watch \/ r = val_watch ->
     hp' r = if Trainer.has_loss (hp r) then hp r else "loss"%string :: hp r) /\
  (forall r, r <> watch -> r <> val_watch -> hp' r = hp r) /\
  Trainer.has_loss (hp' watch) = true /\
  Trainer.has_loss (hp' val_watch) = true /\
  (forall r, snd (Trainer.init watch val_watch hp') r = hp' r).
Proof.
  cbv zeta. unfold Trainer.init. cbn [fst snd Trainer.stop_training Trainer.watch
                                      Trainer.val_watch].
  assert (Hat : forall r, r = watch \/ r = val_watch ->
            Trainer.insert_loss val_watch (Trainer.insert_loss watch hp) r
            = if Trainer.has_loss (hp r) then hp r else "loss"%string :: hp r).
  { intros r Hr. rewrite !insert_loss_at.
    destruct (Nat.eqb_spec r val_watch) as [Ev|Nv].
    - subst r. destruct (Nat.eqb_spec val_watch watch) as [Ew|Nw].
      + destruct (Trainer.has_loss (hp watch)) eqn:E; rewrite Ew.
        * now rewrite E.
        * rewrite has_loss_cons. now rewrite E.
      + reflexivity.
    - destruct Hr as [-> | ->]; [|congruence]. now rewrite Nat.eqb_refl. }
  assert (Hloss : forall r, r = watch \/ r = val_watch ->
            Trainer.has_loss
              (Trainer.insert_loss val_watch (Trainer.insert_loss watch hp) r) = true).
  { intros r Hr. rewrite (Hat r Hr).
    destruct (Trainer.has_loss (hp r)) eqn:E; [exact E|reflexivity]. }
  split; [reflexivity|]. split; [reflexivity|]. split; [reflexivity|].
  split; [exact Hat|]. split.
  - intros r Nw Nv. rewrite !insert_loss_at.
    destruct (Nat.eqb_spec r val_watch); [contradiction|].
    destruct (Nat.eqb_spec r watch); [contradiction|reflexivity].
  - split; [apply Hloss; now left|]. split; [apply Hloss; now right|].
    intros r. set (hp' := Trainer.insert_loss val_watch (Trainer.insert_loss watch hp)).
    rewrite !insert_loss_at.
    destruct (Nat.eqb_spec r val_watch) as [-> |Nv].
    + destruct (Nat.eqb_spec val_watch watch) as [Ew|Nw].
      * rewrite Ew. unfold hp'. rewrite (Hloss watch (or_introl eq_refl)).
        rewrite (Hloss watch (or_introl eq_refl)). reflexivity.
      * unfold hp'. now rewrite (Hloss val_watch (or_intror eq_refl)).
    + destruct (Nat.eqb_spec r watch) as [-> |Nw]; [|reflexivity].
      unfold hp'. now rewrite (Hloss watch (or_introl eq_refl)).
Qed.

(** ** The trainer: one epoch, validation and the loop over epochs *)

Lemma bind_Some {S A B} (c : M S A) (k : A -> M S B) s s' b :
  bind c k s = (s', Some b) ->
  exists s1 a, c s = (s1, Some a) /\ k a s1 = (s', Some b).
Proof.
  unfold bind. destruct (c s) as (s1, [a|]); [eauto|discriminate].
Qed.

Lemma bind_None {S A B} (c : M S A) (k : A -> M S B) s s1 :
  c s = (s1, None) -> bind c k s = (s1, None).
Proof. unfold bind. now intros ->. Qed.

Lemma bind_step {S A B} (c : M S A) (k : A -> M S B) s s1 a :
  c s = (s1, Some a) -> bind c k s = k a s1.
Proof. unfold bind. now intros ->. Qed.

Section TrainerFacts.
Context {batch tensor scalar meter world : Type}.
Variable AverageMeter : meter.
Variable update : scalar -> Z -> meter -> meter.
Variable avg : meter -> scalar.
Variable batch_size : batch -> Z.
Variable data0 : tensor -> scalar.
Variable model_forward : batch -> option bool -> M world (dict tensor).
Variable zero_grad : M world unit.
Variable backward : tensor -> M world unit.
Variable step : M world unit.
Variable logger_info : String.string -> M world unit.
Variable format3 : scalar -> String.string.

Abbreviation state := (@Trainer.state world).
Abbreviation callback := (@Trainer.callback tensor scalar world).
Abbreviation watched st := (Trainer.lists st (Trainer.watch (Trainer.self st))).
Abbreviation train_batches :=
  (Trainer.train_batches update batch_size data0 model_forward zero_grad backward step).
Abbreviation train_one_epoch :=
  (Trainer.train_one_epoch AverageMeter update avg batch_size data0 model_forward
     zero_grad backward step).
Abbreviation validate_batches :=
  (Trainer.validate_batches update batch_size data0 model_forward).
Abbreviation validate :=
  (Trainer.validate AverageMeter update avg batch_size data0 model_forward).
Abbreviation run_epoch :=
  (Trainer.run_epoch AverageMeter update avg batch_size data0 model_forward
     zero_grad backward step logger_info format3).
Abbreviation train_epochs :=
  (Trainer.train_epochs AverageMeter update avg batch_size data0 model_forward
     zero_grad backward step logger_info format3).
Abbreviation train :=
  (Trainer.train AverageMeter update avg batch_size data0 model_forward
     zero_grad backward step logger_info format3).

Lemma update_all_keys metric n (log log' : dict meter) :
  Trainer.update_all update data0 metric n log = Some log' -> keys log' = keys log.
Proof.
  revert log'. induction log as [|(name, m) r IH]; cbn [Trainer.update_all]; intros log' E.
  - now injection E as <-.
  - destruct (getitem name metric); [|discriminate].
    destruct (Trainer.update_all update data0 metric n r) as [r'|]; [|discriminate].
    injection E as <-. unfold keys in *. cbn [map fst]. f_equal. now apply IH.
Qed.

Lemma update_all_missing metric n (log : dict meter) name :
  In name (keys log) -> getitem name metric = None ->
  Trainer.update_all update data0 metric n log = None.
Proof.
  intros Hin Hmiss. induction log as [|(name', m) r IH]; [contradiction|].
  cbn [Trainer.update_all]. destruct Hin as [E|Hin].
  - cbn [fst] in E. subst name'. now rewrite Hmiss.
  - destruct (getitem name' metric); [|reflexivity]. now rewrite (IH Hin).
Qed.

Lemma train_batches_keys epoch (callbacks : list callback) batches :
  forall i log (st st' : state) log',
    train_batches epoch callbacks i batches log st = (st', Some log') ->
    keys log' = keys log.
Proof.
  induction batches as [|b r IH]; intros i log st st' log' E.
  - cbn in E. now injection E as _ <-.
  - cbn [Trainer.train_batches] in E.
    apply bind_Some in E. destruct E as (s1 & metric & _ & E).
    apply bind_Some in E. destruct E as (s2 & loss & _ & E).
    apply bind_Some in E. destruct E as (s3 & log1 & E1 & E).
    apply bind_Some in E. destruct E as (s4 & ? & _ & E).
    apply bind_Some in E. destruct E as (s5 & ? & _ & E).
    apply bind_Some in E. destruct E as (s6 & ? & _ & E).
    apply bind_Some in E. destruct E as (s7 & ? & _ & E).
    unfold lift in E1. injection E1 as _ E1.
    rewrite (IH _ _ _ _ _ E). now apply update_all_keys in E1.
Qed.

Lemma validate_batches_run batches :
  forall log (st st' : state) log',
    validate_batches batches log st = (st', Some log') ->
    keys log' = keys log /\
    Trainer.self st' = Trainer.self st /\ Trainer.lists st' = Trainer.lists st.
Proof.
  induction batches as [|b r IH]; intros log st st' log' E.
  - cbn in E. injection E as <- <-. auto.
  - cbn [Trainer.validate_batches] in E.
    apply bind_Some in E. destruct E as (s1 & metric & E0 & E).
    apply bind_Some in E. destruct E as (s2 & log1 & E1 & E).
    unfold lift in E1. injection E1 as <- E1.
    destruct (IH _ _ _ _ E) as (Hk & Hs & Hl).
    unfold Trainer.on_world in E0.
    destruct (model_forward b None (Trainer.env st)) as (w, a).
    injection E0 as <- _.
    rewrite Hk, Hs, Hl. split; [now apply update_all_keys in E1|auto].
Qed.

(** X12.  When [train_one_epoch] returns, the log it returns has exactly
    one entry for every name of the watch list as it was when the epoch
    began: no name twice, also when the list repeats a name, and no other
    name. *)
Theorem train_one_epoch_keys epoch train_loader (callbacks : list callback)
    (st st' : state) log :
  train_one_epoch epoch train_loader callbacks st = (st', Some log) ->
  NoDup (keys log) /\
  forall name, In name (keys log) <-> In name (watched st).
Proof.
  intros E. unfold Trainer.train_one_epoch in E.
  apply bind_Some in E. destruct E as (s1 & log0 & E0 & E).
  apply bind_Some in E. destruct E as (s2 & log1 & E1 & E).
  unfold ret in E. injection E as _ <-.
  unfold Trainer.new_log, gets in E0. injection E0 as <- <-.
  apply train_batches_keys in E1.
  destruct (keys_comprehension (V := scalar) fst (fun item => avg (snd item)) log1)
    as (Hnd & Hin).
  split; [exact Hnd|]. intros name. rewrite Hin. fold (keys log1). rewrite E1.
  destruct (keys_comprehension (fun name : String.string => name)
              (fun _ => AverageMeter) (watched st)) as (_ & Hin0).
  rewrite Hin0, map_id. reflexivity.
Qed.

(** X13.  A metric that lacks ['loss'] or a watched name stops the epoch
    before the optimizer is touched: when the model returns such a metric
    for the first batch, [train_one_epoch] raises, and the state it leaves
    is the one the call of the model left (no [zero_grad], no [backward],
    no [step], no callback). *)
Theorem train_one_epoch_missing_metric epoch b rest (callbacks : list callback)
    (st : state) w metric :
  model_forward b (Some true) (Trainer.env st) = (w, Some metric) ->
  getitem "loss"%string metric = None \/
  (exists name, In name (watched st) /\ getitem name metric = None) ->
  train_one_epoch epoch (b :: rest) callbacks st
  = (Trainer.mkState (Trainer.self st) (Trainer.lists st) w, None).
Proof.
  intros Em Hmiss. unfold Trainer.train_one_epoch.
  unfold Trainer.new_log at 1. unfold bind at 1. unfold gets.
  apply bind_None. cbn [Trainer.train_batches].
  rewrite (bind_step _ _ st (Trainer.mkState (Trainer.self st) (Trainer.lists st) w) metric).
  2:{ unfold Trainer.on_world. now rewrite Em. }
  destruct (getitem "loss"%string metric) as [loss|] eqn:El.
  - rewrite (bind_step _ _ _ _ loss) by reflexivity.
    apply bind_None. unfold lift. f_equal.
    destruct Hmiss as [?|(name & Hin & Hn)]; [discriminate|].
    apply (update_all_missing _ _ _ name); [|exact Hn].
    destruct (keys_comprehension (fun name : String.string => name)
                (fun _ => AverageMeter) (watched st)) as (_ & Hin0).
    apply Hin0. now rewrite map_id.
  - apply bind_None. reflexivity.
Qed.

Lemma val_name_inj a b : Trainer.val_name a = Trainer.val_name b -> a = b.
Proof. unfold Trainer.val_name. simpl. intros E. now injection E. Qed.

Lemma validate_log_keys epoch val_loader (st st' : state) log :
  validate epoch val_loader st = (st', Some log) ->
  NoDup (keys log) /\
  (forall key, In key (keys log) <->
               exists name, In name (watched st) /\ key = Trainer.val_name name) /\
  ~ In "loss"%string (keys log) /\
  Trainer.self st' = Trainer.self st /\ Trainer.lists st' = Trainer.lists st.
Proof.
  intros E. unfold Trainer.validate in E.
  apply bind_Some in E. destruct E as (s1 & log0 & E0 & E).
  apply bind_Some in E. destruct E as (s2 & log1 & E1 & E).
  unfold ret in E. injection E as <- <-.
  unfold Trainer.new_log, gets in E0. injection E0 as <- <-.
  destruct (validate_batches_run _ _ _ _ _ E1) as (Hk & Hs & Hl).
  destruct (keys_comprehension (V := scalar) (fun item => Trainer.val_name (fst item))
              (fun item => avg (snd item)) log1) as (Hnd & Hin).
  destruct (keys_comprehension (fun name : String.string => name)
              (fun _ => AverageMeter) (watched st)) as (_ & Hin0).
  assert (Hkeys : forall key, In key (keys (comprehension
                     (fun item => Trainer.val_name (fst item))
                     (fun item => avg (snd item)) log1)) <->
                   exists name, In name (watched st) /\ key = Trainer.val_name name).
  { intros key. rewrite Hin, in_map_iff. split.
    - intros ((name, m) & <- & Hitem). exists name. split; [|reflexivity].
      apply (in_map fst) in Hitem. fold (keys log1) in Hitem. rewrite Hk in Hitem.
      apply Hin0 in Hitem. now rewrite map_id in Hitem.
    - intros (name & Hname & ->).
      assert (Hk1 : In name (keys log1)).
      { rewrite Hk. apply Hin0. now rewrite map_id. }
      unfold keys in Hk1. apply in_map_iff in Hk1. destruct Hk1 as (item & <- & Hitem).
      exists item. auto. }
  split; [exact Hnd|]. split; [exact Hkeys|]. split; [|auto].
  intros Hloss. apply Hkeys in Hloss. destruct Hloss as (name & _ & Hloss).
  unfold Trainer.val_name in Hloss. simpl in Hloss. discriminate.
Qed.

(** X14.  When [validate] returns, its log has one entry ['val_' + name]
    for every name of the watch list [self.watch] (the list [val_watch] is
    not read), no key twice and no other key, so no key is ['loss'];
    [validate] leaves the trainer and its lists as they were (the model
    acts on its own state, not on the trainer). *)
Theorem validate_keys epoch val_loader (st st' : state) log :
  validate epoch val_loader st = (st', Some log) ->
  NoDup (keys log) /\
  (forall key, In key (keys log) <->
               exists name, In name (watched st) /\ key = Trainer.val_name name) /\
  ~ In "loss"%string (keys log) /\
  Trainer.self st' = Trainer.self st /\ Trainer.lists st' = Trainer.lists st.
Proof. apply validate_log_keys. Qed.

Lemma range_from_cons start stop :
  start < stop ->
  Trainer.range_from start stop = start :: Trainer.range_from (start + 1) stop.
Proof.
  intros Hlt. unfold Trainer.range_from, range.
  replace (Z.to_nat (stop - start)) with (S (Z.to_nat (stop - (start + 1)))) by lia.
  cbn [seq map]. f_equal; [lia|].
  rewrite <- seq_shift, !map_map. apply map_ext. intros k. lia.
Qed.

Lemma range_from_nil start stop : stop <= start -> Trainer.range_from start stop = [].
Proof.
  intros Hle. unfold Trainer.range_from, range.
  replace (Z.to_nat (stop - start)) with 0%nat by lia. reflexivity.
Qed.

(** X15.  [train] looks at [stop_training] only at the start of an epoch.
    With no epoch left ([epochs <= start_epoch]) or with the flag already
    set it returns at once and changes nothing.  Otherwise it runs the whole
    epoch [start_epoch] (training, validation, logging, callbacks): when that
    raises, [train] raises with the state reached; when it ends with the
    flag set, [train] returns there, however many epochs were asked for;
    and when it ends with the flag clear, [train] goes on as a call from
    [start_epoch + 1] would. *)
Theorem train_checks_stop_between_epochs train_loader val_loader
    (callbacks : list callback) start_epoch epochs (st : state) :
  (epochs <= start_epoch \/ Trainer.stop_training (Trainer.self st) = true ->
   train train_loader val_loader start_epoch epochs callbacks st = (st, Some tt)) /\
  (start_epoch < epochs -> Trainer.stop_training (Trainer.self st) = false ->
   forall st1,
     (run_epoch start_epoch train_loader val_loader callbacks st = (st1, None) ->
      train train_loader val_loader start_epoch epochs callbacks st = (st1, None)) /\
     (run_epoch start_epoch train_loader val_loader callbacks st = (st1, Some tt) ->
      (Trainer.stop_training (Trainer.self st1) = true ->
       train train_loader val_loader start_epoch epochs callbacks st = (st1, Some tt)) /\
      train train_loader val_loader start_epoch epochs callbacks st
      = train train_loader val_loader (start_epoch + 1) epochs callbacks st1)).
Proof.
  split.
  - intros [Hle|Hstop]; unfold Trainer.train.
    + now rewrite range_from_nil.
    + destruct (Trainer.range_from start_epoch epochs) as [|e r]; [reflexivity|].
      cbn [Trainer.train_epochs]. unfold bind, gets. now rewrite Hstop.
  - intros Hlt Hgo st1. unfold Trainer.train at 1 2 3.
    rewrite range_from_cons by exact Hlt. cbn [Trainer.train_epochs].
    unfold bind at 1 3 5. unfold gets. rewrite Hgo. split.
    + intros E. now apply bind_None.
    + intros E. rewrite (bind_step _ _ _ _ _ E). split; [|reflexivity].
      intros Hstop. unfold Trainer.train.
      destruct (Trainer.range_from (start_epoch + 1) epochs) as [|e r]; [reflexivity|].
      cbn [Trainer.train_epochs]. unfold bind, gets. now rewrite Hstop.
Qed.

End TrainerFacts.

(** ** The log handed to the callbacks *)

Lemma getitem_setitem {V} k k' (v : V) d :
  getitem k (setitem k' v d) = if String.eqb k' k then Some v else getitem k d.
Proof.
  induction d as [|(k0, v0) r IH]; cbn [setitem getitem]; [reflexivity|].
  destruct (String.eqb_spec k0 k') as [E|E].
  - subst k0. cbn [getitem]. destruct (String.eqb k' k); reflexivity.
  - cbn [getitem]. rewrite IH.
    destruct (String.eqb_spec k0 k) as [E0|E0]; [|reflexivity].
    subst k0. destruct (String.eqb_spec k' k) as [E1|_]; [congruence|reflexivity].
Qed.

Lemma getitem_absent {V} k (d : dict V) : ~ In k (keys d) -> getitem k d = None.
Proof.
  induction d as [|(k0, v0) r IH]; [reflexivity|]. cbn [keys map fst getitem].
  intros N. destruct (String.eqb_spec k0 k) as [E|_].
  - exfalso. apply N. now left.
  - apply IH. intros H. apply N. now right.
Qed.

Lemma getitem_present {V} k (d : dict V) : In k (keys d) -> exists v, getitem k d = Some v.
Proof.
  induction d as [|(k0, v0) r IH]; [contradiction|]. cbn [keys map fst getitem].
  intros [E|H].
  - subst k0. rewrite String.eqb_refl. eauto.
  - destruct (String.eqb k0 k); [eauto|now apply IH].
Qed.

Lemma getitem_dict_update {V} k (d e : dict V) :
  NoDup (keys e) ->
  getitem k (dict_update d e) =
  match getitem k e with Some v => Some v | None => getitem k d end.
Proof.
  unfold dict_update. revert d. induction e as [|(k1, v1) r IH]; intros d Hnd.
  - reflexivity.
  - cbn [fold_left fst snd getitem]. cbn [keys map fst] in Hnd.
    inversion Hnd as [|? ? Hnot Hnd']; subst.
    rewrite (IH _ Hnd'). rewrite getitem_setitem.
    destruct (String.eqb_spec k1 k) as [E|_]; [|reflexivity].
    subst k1. now rewrite (getitem_absent k r Hnot).
Qed.

Section TrainerLog.
Context {batch tensor scalar meter world : Type}.
Variable AverageMeter : meter.
Variable update : scalar -> Z -> meter -> meter.
Variable avg : meter -> scalar.
Variable batch_size : batch -> Z.
Variable data0 : tensor -> scalar.
Variable model_forward : batch -> option bool -> M world (dict tensor).
Variable zero_grad : M world unit.
Variable backward : tensor -> M world unit.
Variable step : M world unit.
Variable logger_info : String.string -> M world unit.
Variable format3 : scalar -> String.string.

(** X16.  The log of an epoch.  When training and validation of an epoch
    return the logs [epoch_log] and [val_log] and the two lines are logged,
    the callbacks get [epoch_log] updated with [val_log]: it holds the
    validation average of every watched name under ['val_' + name], and the
    training average of a watched name under the name itself unless that
    name is ['val_' + m] for a watched name [m], in which case the training
    average has been replaced by the validation average of [m]. *)
Theorem run_epoch_hands_merged_log epoch train_loader val_loader
    (callbacks : list (@Trainer.callback tensor scalar world))
    (st s1 s2 : @Trainer.state world) w3 w4 epoch_log val_log :
  Trainer.train_one_epoch AverageMeter update avg batch_size data0 model_forward
    zero_grad backward step epoch train_loader callbacks st = (s1, Some epoch_log) ->
  Trainer.validate AverageMeter update avg batch_size data0 model_forward
    epoch val_loader s1 = (s2, Some val_log) ->
  logger_info (Trainer.message format3 epoch_log) (Trainer.env s2) = (w3, Some tt) ->
  logger_info (Trainer.message format3 val_log) w3 = (w4, Some tt) ->
  let merged := dict_update epoch_log val_log in
  Trainer.run_epoch AverageMeter update avg batch_size data0 model_forward
    zero_grad backward step logger_info format3
    epoch train_loader val_loader callbacks st
  = Trainer.each callbacks (fun cbk => Trainer.on_epoch_end cbk epoch merged)
      (Trainer.mkState (Trainer.self s2) (Trainer.lists s2) w4) /\
  (forall name, In name (Trainer.lists s1 (Trainer.watch (Trainer.self s1))) ->
     getitem (Trainer.val_name name) merged = getitem (Trainer.val_name name) val_log /\
     exists a, getitem (Trainer.val_name name) val_log = Some a) /\
  (forall name,
     (forall m, In m (Trainer.lists s1 (Trainer.watch (Trainer.self s1))) ->
                name <> Trainer.val_name m) ->
     getitem name merged = getitem name epoch_log).
Proof.
  intros Et Ev E3 E4 merged.
  destruct (validate_log_keys _ _ _ _ _ _ _ _ _ _ _ Ev) as (Hnd & Hkeys & _ & _ & _).
  split; [|split].
  - unfold Trainer.run_epoch.
    rewrite (bind_step _ _ _ _ _ Et). rewrite (bind_step _ _ _ _ _ Ev).
    rewrite (bind_step _ _ s2 (Trainer.mkState (Trainer.self s2) (Trainer.lists s2) w3) tt).
    2:{ unfold Trainer.on_world. now rewrite E3. }
    rewrite (bind_step _ _ _ (Trainer.mkState (Trainer.self s2) (Trainer.lists s2) w4) tt).
    2:{ unfold Trainer.on_world. cbn [Trainer.env Trainer.self Trainer.lists].
        now rewrite E4. }
    reflexivity.
  - intros name Hname.
    assert (Hin : In (Trainer.val_name name) (keys val_log)).
    { apply Hkeys. exists name. auto. }
    destruct (getitem_present _ _ Hin) as (a & Ea).
    split; [|eauto]. unfold merged. rewrite getitem_dict_update by exact Hnd.
    now rewrite Ea.
  - intros name Hname. unfold merged. rewrite getitem_dict_update by exact Hnd.
    rewrite getitem_absent; [reflexivity|].
    intros Hin. apply Hkeys in Hin. destruct Hin as (m & Hm & ->).
    now apply (Hname m).
Qed.

End TrainerLog.

(** ** The further properties on concrete inputs *)

Lemma action_forward_log_probabilities_witness :
  (ncols hidden_2x2 <> torch.in_features (ActionNet.fc action_net) ->
   ActionNet.forward action_net hidden_2x2 = None) /\
  (ncols hidden_2x2 = torch.in_features (ActionNet.fc action_net) ->
   exists a_t,
     ActionNet.forward action_net hidden_2x2 = Some a_t /\
     shape2 a_t = (nrows hidden_2x2, torch.out_features (ActionNet.fc action_net)) /\
     (forall i j, 0 <= j < ncols a_t -> (at2 a_t i j <= 0)%R) /\
     (forall i, torch.Rsum (map (fun j => exp (at2 a_t i j)) (range (ncols a_t))) = 1%R)).
Proof.
  apply (action_forward_log_probabilities action_net hidden_2x2). simpl. lia.
Defined.

Lemma core_forward_keeps_shape_witness :
  exists h_t,
    core_network.forward core_2_3 two_glimpses hidden_2x3 = Some h_t /\
    shape2 h_t = (2, 3) /\
    (forall i j, (0 <= at2 h_t i j)%Q) /\
    (forall g_next, shape2 g_next = (2, 2) ->
       exists h_next, core_network.forward core_2_3 g_next h_t = Some h_next /\
                      shape2 h_next = (2, 3)).
Proof.
  destruct (core_forward_keeps_shape 2 3 unit_params unit_params 2
              two_glimpses hidden_2x3 eq_refl eq_refl)
    as (h1 & h2 & h_t & _ & _ & E & S & Hpos & _ & Hnext).
  exists h_t. auto.
Defined.

Lemma first_step_from_init_state_witness :
  exists h_0 l_0 h_1,
    snd (core_network.init_state core_2_3 2 false counting_generator) = Some (h_0, l_0) /\
    core_network.forward core_2_3 two_glimpses h_0 = Some h_1 /\
    shape2 h_1 = (2, 3) /\
    forall i j, 0 <= i < 2 -> 0 <= j < 3 ->
      (at2 h_1 i j ==
       Qrelu (torch.dot 2 (at2 two_glimpses i) (torch.p_weight unit_params j)
              + torch.p_bias unit_params j + torch.p_bias unit_params j))%Q.
Proof.
  apply (first_step_from_init_state 2 3 unit_params unit_params 2 false
           counting_generator two_glimpses); [lia|lia|reflexivity].
Defined.

Lemma train_one_epoch_keys_witness :
  exists st' log,
    Trainer.train_one_epoch (0, 0) toy_update toy_avg (fun b => b) (fun v => v)
      toy_forward toy_skip (fun _ => toy_skip) toy_step 0 [2; 3] [stopper] toy_state
    = (st', Some log) /\
    NoDup (keys log) /\
    forall name, In name (keys log) <->
                 In name (Trainer.lists toy_state (Trainer.watch (Trainer.self toy_state))).
Proof.
  destruct (Trainer.train_one_epoch (0, 0) toy_update toy_avg (fun b => b) (fun v => v)
              toy_forward toy_skip (fun _ => toy_skip) toy_step 0 [2; 3] [stopper]
              toy_state) as (st', [log|]) eqn:E.
  - exists st', log. split; [reflexivity|].
    exact (train_one_epoch_keys (0, 0) toy_update toy_avg (fun b => b) (fun v => v)
             toy_forward toy_skip (fun _ => toy_skip) toy_step 0 [2; 3] [stopper]
             toy_state st' log E).
  - exfalso. vm_compute in E. discriminate.
Defined.

Lemma train_one_epoch_missing_metric_witness :
  Trainer.train_one_epoch (0, 0) toy_update toy_avg (fun b => b) (fun v => v)
    poor_forward toy_skip (fun _ => toy_skip) toy_step 0 [2; 3] [stopper] toy_state
  = (Trainer.mkState (Trainer.self toy_state) (Trainer.lists toy_state) 0%nat, None).
Proof.
  apply (train_one_epoch_missing_metric (0, 0) toy_update toy_avg (fun b => b)
           (fun v => v) poor_forward toy_skip (fun _ => toy_skip) toy_step 0 2 [3]
           [stopper] toy_state 0%nat [("loss"%string, 2)]).
  - reflexivity.
  - right. exists "acc"%string. split; [|reflexivity]. vm_compute. auto.
Defined.

Lemma validate_keys_witness :
  exists st' log,
    Trainer.validate (0, 0) toy_update toy_avg (fun b => b) (fun v => v)
      toy_forward 0 [2; 3] toy_state
    = (st', Some log) /\
    NoDup (keys log) /\
    (forall key, In key (keys log) <->
       exists name,
         In name (Trainer.lists toy_state (Trainer.watch (Trainer.self toy_state))) /\
         key = Trainer.val_name name) /\
    ~ In "loss"%string (keys log) /\
    Trainer.self st' = Trainer.self toy_state /\
    Trainer.lists st' = Trainer.lists toy_state.
Proof.
  destruct (Trainer.validate (0, 0) toy_update toy_avg (fun b => b) (fun v => v)
              toy_forward 0 [2; 3] toy_state) as (st', [log|]) eqn:E.
  - exists st', log. split; [reflexivity|].
    exact (validate_keys (0, 0) toy_update toy_avg (fun b => b) (fun v => v)
             toy_forward 0 [2; 3] toy_state st' log E).
  - exfalso. vm_compute in E. discriminate.
Defined.

Lemma train_checks_stop_between_epochs_witness :
  exists st1,
    Trainer.run_epoch (0, 0) toy_update toy_avg (fun b => b) (fun v => v)
      toy_forward toy_skip (fun _ => toy_skip) toy_step (fun _ => toy_skip) toy_format
      0 [2; 3] [4] [stopper] toy_state = (st1, Some tt) /\
    Trainer.env st1 = 2%nat /\
    Trainer.train (0, 0) toy_update toy_avg (fun b => b) (fun v => v)
      toy_forward toy_skip (fun _ => toy_skip) toy_step (fun _ => toy_skip) toy_format
      [2; 3] [4] 0 200 [stopper] toy_state = (st1, Some tt).
Proof.
  destruct (Trainer.run_epoch (0, 0) toy_update toy_avg (fun b => b) (fun v => v)
              toy_forward toy_skip (fun _ => toy_skip) toy_step (fun _ => toy_skip)
              toy_format 0 [2; 3] [4] [stopper] toy_state) as (st1, [[]|]) eqn:E.
  - exists st1. split; [reflexivity|].
    pose proof (f_equal (fun r => (Trainer.env (fst r),
                                   Trainer.stop_training (Trainer.self (fst r)))) E) as H.
    vm_compute in H. injection H as Hstop Henv.
    split; [now symmetry|].
    destruct (train_checks_stop_between_epochs (0, 0) toy_update toy_avg (fun b => b)
                (fun v => v) toy_forward toy_skip (fun _ => toy_skip) toy_step
                (fun _ => toy_skip) toy_format [2; 3] [4] [stopper] 0 200 toy_state)
      as (_ & Hrun).
    destruct (Hrun ltac:(lia) eq_refl st1) as (_ & Hok).
    destruct (Hok E) as (Hstopped & _). apply Hstopped. now symmetry.
  - exfalso. vm_compute in E. discriminate.
Defined.

Lemma run_epoch_hands_merged_log_witness :
  let epoch_log := [("loss"%string, 2); ("acc"%string, 1)] in
  let val_log := [("val_loss"%string, 4); ("val_acc"%string, 1)] in
  let merged := dict_update epoch_log val_log in
  Trainer.run_epoch (0, 0) toy_update toy_avg (fun b => b) (fun v => v)
    toy_forward toy_skip (fun _ => toy_skip) toy_step (fun _ => toy_skip) toy_format
    0 [2; 3] [4] [stopper] toy_state
  = Trainer.each [stopper] (fun cbk => Trainer.on_epoch_end cbk 0 merged)
      (Trainer.mkState (Trainer.self toy_validated) (Trainer.lists toy_validated) 2%nat) /\
  (forall name,
     In name (Trainer.lists toy_trained (Trainer.watch (Trainer.self toy_trained))) ->
     getitem (Trainer.val_name name) merged = getitem (Trainer.val_name name) val_log /\
     exists a, getitem (Trainer.val_name name) val_log = Some a) /\
  (forall name,
     (forall m,
        In m (Trainer.lists toy_trained (Trainer.watch (Trainer.self toy_trained))) ->
        name <> Trainer.val_name m) ->
     getitem name merged = getitem name epoch_log).
Proof.
  apply (run_epoch_hands_merged_log (0, 0) toy_update toy_avg (fun b => b) (fun v => v)
           toy_forward toy_skip (fun _ => toy_skip) toy_step (fun _ => toy_skip)
           toy_format 0 [2; 3] [4] [stopper] toy_state toy_trained toy_validated
           2%nat 2%nat).
  - vm_compute. reflexivity.
  - vm_compute. reflexivity.
  - reflexivity.
  - reflexivity.
Defined.

(** One epoch of the toy trainer: the averages of the loss and of the
    accuracy over batches of 2 and 3, and two steps of the optimizer. *)
Example toy_epoch :
  let r := Trainer.train_one_epoch (0, 0) toy_update toy_avg (fun b => b) (fun v => v)
             toy_forward toy_skip (fun _ => toy_skip) toy_step 0 [2; 3] [stopper]
             toy_state in
  snd r = Some [("loss"%string, 2); ("acc"%string, 1)] /\ Trainer.env (fst r) = 2%nat.
Proof. split; vm_compute; reflexivity. Qed.
